(** * Verification of the query-safety layer of mcp-database-inspector

    A shallow embedding of the validators ([QueryValidator],
    [InputValidator]) and of the parts of [DatabaseManager] that drive them
    (row limiting, plan summarisation, foreign keys, the catalog query).

    Strings are modelled as Rocq [string]s: sequences of 8-bit code units.
    The model is exact on ASCII text.  For code units 128..255 it reads them
    as Latin-1: 0xA0 is white space, the Latin-1 lower-case letters upper-case
    by -0x20, and the three letters whose upper case falls outside the byte
    range (0xB5, 0xDF, 0xFF) are kept unchanged. *)

From Stdlib Require Import Ascii String List ZArith Bool Lia DecimalString.
Import ListNotations.

Local Set Warnings "-register-all,-abstract-large-number".


Local Open Scope bool_scope.

(* ------------------------------------------------------------------ *)
(** ** Characters and the JavaScript string primitives *)

Module JsString.

Local Open Scope string_scope.

Definition code (c : ascii) : nat := nat_of_ascii c.

Definition in_range (lo hi : nat) (c : ascii) : bool :=
  Nat.leb lo (code c) && Nat.leb (code c) hi.

(** JavaScript white space ([\s], [String.prototype.trim]) restricted to
    8-bit code units: TAB, LF, VT, FF, CR, SPACE and NBSP. *)
Definition is_space (c : ascii) : bool :=
  in_range 9 13 c || Nat.eqb (code c) 32 || Nat.eqb (code c) 160.

(** [\w] of a non-unicode JavaScript regular expression. *)
Definition is_word (c : ascii) : bool :=
  in_range 97 122 c || in_range 65 90 c || in_range 48 57 c || Nat.eqb (code c) 95.

Definition is_digit (c : ascii) : bool := in_range 48 57 c.

(** [toUpperCase] on one code unit. *)
Definition upper_char (c : ascii) : ascii :=
  if in_range 97 122 c || (in_range 224 254 c && negb (Nat.eqb (code c) 247))
  then ascii_of_nat (code c - 32) else c.

Fixpoint toUpperCase (s : string) : string :=
  match s with
  | EmptyString => EmptyString
  | String c r => String (upper_char c) (toUpperCase r)
  end.

Fixpoint trimStart (s : string) : string :=
  match s with
  | EmptyString => EmptyString
  | String c r => if is_space c then trimStart r else s
  end.

Fixpoint rev_str (s : string) (acc : string) : string :=
  match s with
  | EmptyString => acc
  | String c r => rev_str r (String c acc)
  end.

Definition trimEnd (s : string) : string :=
  rev_str (trimStart (rev_str s EmptyString)) EmptyString.

Definition trim (s : string) : string := trimEnd (trimStart s).

(** [s.startsWith(p)] *)
Definition startsWith (s p : string) : bool := String.prefix p s.

(** [s.includes(p)] *)
Fixpoint includes (s p : string) : bool :=
  String.prefix p s ||
  match s with
  | EmptyString => false
  | String _ r => includes r p
  end.

(** [s.split(' ')[0]] *)
Fixpoint first_word (s : string) : string :=
  match s with
  | EmptyString => EmptyString
  | String c r => if Ascii.eqb c " "%char then EmptyString else String c (first_word r)
  end.

(** Number of occurrences of one code unit. *)
Fixpoint count_char (c : ascii) (s : string) : nat :=
  match s with
  | EmptyString => 0
  | String d r => (if Ascii.eqb c d then 1 else 0) + count_char c r
  end.

(** [arr.join(sep)] *)
Fixpoint join (sep : string) (l : list string) : string :=
  match l with
  | [] => EmptyString
  | [x] => x
  | x :: r => x ++ sep ++ join sep r
  end.

(** The decimal rendering of an integer in a template literal. *)
Definition Z_to_dec (z : Z) : string := NilEmpty.string_of_int (Z.to_int z).

End JsString.

(* ------------------------------------------------------------------ *)
(** ** Regular expressions

    The [RegExp.prototype.test] result of the patterns the validators use.
    A pattern is matched from every start position; [ends r s i] lists the
    positions at which a match of [r] starting at [i] can end.  [test] is
    true exactly when some start position has some match, which is what the
    backtracking matcher of JavaScript decides for these patterns (they have
    no back-references and no look-around).  A starred sub-pattern must
    advance at each iteration, as in ECMAScript's RepeatMatcher. *)

Module Regex.
Import JsString.

Inductive regex : Type :=
| REps
| RChar (p : ascii -> bool)
| RSeq (r1 r2 : regex)
| RAlt (r1 r2 : regex)
| RStar (r : regex)
| RBol
| REol
| RWordB.

Definition RPlus (r : regex) : regex := RSeq r (RStar r).
Definition ROpt (r : regex) : regex := RAlt r REps.

Fixpoint star_from (f : nat -> list nat) (fuel i : nat) : list nat :=
  match fuel with
  | 0 => [i]
  | S n => i :: flat_map (fun j => if i <? j then star_from f n j else []) (f i)
  end.

Definition word_at (s : string) (i : nat) : bool :=
  match String.get i s with Some c => is_word c | None => false end.

Fixpoint ends (r : regex) (s : string) (i : nat) : list nat :=
  match r with
  | REps => [i]
  | RChar p =>
      match String.get i s with
      | Some c => if p c then [S i] else []
      | None => []
      end
  | RSeq r1 r2 => flat_map (ends r2 s) (ends r1 s i)
  | RAlt r1 r2 => ends r1 s i ++ ends r2 s i
  | RStar r1 => star_from (ends r1 s) (S (String.length s)) i
  | RBol => if i =? 0 then [i] else []
  | REol => if i =? String.length s then [i] else []
  | RWordB =>
      let before := match i with 0 => false | S k => word_at s k end in
      if xorb before (word_at s i) then [i] else []
  end.

Definition matches_at (r : regex) (s : string) (i : nat) : bool :=
  match ends r s i with [] => false | _ => true end.

(** [r.test(s)] *)
Definition test (r : regex) (s : string) : bool :=
  existsb (matches_at r s) (seq 0 (S (String.length s))).

(** One character, compared case-insensitively when [ci] is set
    (the [i] flag: both sides canonicalised by [upper_char]). *)
Definition rchar (ci : bool) (c : ascii) : regex :=
  RChar (fun d => if ci then Ascii.eqb (upper_char d) (upper_char c) else Ascii.eqb d c).

Fixpoint rlit (ci : bool) (w : string) : regex :=
  match w with
  | EmptyString => REps
  | String c r => RSeq (rchar ci c) (rlit ci r)
  end.

Fixpoint ralts (ci : bool) (ws : list string) : regex :=
  match ws with
  | [] => RChar (fun _ => false)
  | [w] => rlit ci w
  | w :: r => RAlt (rlit ci w) (ralts ci r)
  end.

Definition rspace : regex := RChar is_space.
Definition rword : regex := RChar is_word.
Definition rdigit : regex := RChar is_digit.

End Regex.

(* ------------------------------------------------------------------ *)
(** ** Validation results and database types ([database/types.ts]) *)

Inductive DatabaseType : Type := MySQL | PostgreSQL.

Record ValidationResult : Type := mkResult {
  isValid : bool;
  error : option string;
  warnings : option (list string)
}.

Definition ok : ValidationResult := mkResult true None None.
Definition fail (msg : string) : ValidationResult := mkResult false (Some msg) None.

(* ------------------------------------------------------------------ *)
(** ** [QueryValidator] (dist/validators/input-validator.js, 296-523) *)

Module QueryValidator.
Import JsString Regex.
Local Open Scope string_scope.

Definition FORBIDDEN_KEYWORDS : list string :=
  ["INSERT"; "UPDATE"; "DELETE"; "DROP"; "CREATE";
   "ALTER"; "TRUNCATE"; "REPLACE"; "MERGE"; "CALL";
   "EXEC"; "EXECUTE"; "LOAD"; "IMPORT"; "BULK";
   "GRANT"; "REVOKE"; "SET"; "USE"; "START";
   "BEGIN"; "COMMIT"; "ROLLBACK"; "SAVEPOINT";
   "LOCK"; "UNLOCK"; "FLUSH"; "RESET"; "PURGE";
   "KILL"; "SHUTDOWN"; "RESTART"; "COPY"].

Definition ALLOWED_KEYWORDS : list string :=
  ["SELECT"; "SHOW"; "DESCRIBE"; "DESC"; "EXPLAIN";
   "ANALYZE"; "CHECK"; "CHECKSUM"; "OPTIMIZE"; "WITH"; "VALUES"].

Definition FORBIDDEN_FUNCTIONS : list string :=
  ["LOAD_FILE"; "INTO OUTFILE"; "INTO DUMPFILE";
   "SYSTEM"; "USER_DEFINED_FUNCTION"; "BENCHMARK";
   "PG_READ_FILE"; "PG_LS_DIR"; "PG_EXECUTE"].

(** [.replace(/--[^\r\n]*/g, '')]: a comment runs up to, not including,
    the next CR or LF. *)
Fixpoint strip_line_comments (in_comment : bool) (s : string) : string :=
  match s with
  | EmptyString => EmptyString
  | String c r =>
      if in_comment then
        if Nat.eqb (code c) 10 || Nat.eqb (code c) 13
        then String c (strip_line_comments false r)
        else strip_line_comments true r
      else
        match r with
        | String d r' =>
            if Ascii.eqb c "-"%char && Ascii.eqb d "-"%char
            then strip_line_comments true r'
            else String c (strip_line_comments false r)
        | EmptyString => String c EmptyString
        end
  end.

(** [.replace(/\/\*[\s\S]*?\*\//g, '')]: the lazy body stops at the first
    closing [*/] after the opening [/*]; [pending] holds the text read since
    an opening that is not closed yet, which stays in the result when the
    input ends before a closing. *)
Fixpoint strip_block_comments (pending : option string) (s : string) : string :=
  match pending with
  | None =>
      match s with
      | EmptyString => EmptyString
      | String c r =>
          match r with
          | String d r' =>
              if Ascii.eqb c "/"%char && Ascii.eqb d "*"%char
              then strip_block_comments (Some EmptyString) r'
              else String c (strip_block_comments None r)
          | EmptyString => String c EmptyString
          end
      end
  | Some buf =>
      match s with
      | EmptyString => "/*" ++ buf
      | String c r =>
          match r with
          | String d r' =>
              if Ascii.eqb c "*"%char && Ascii.eqb d "/"%char
              then strip_block_comments None r'
              else strip_block_comments (Some (buf ++ String c EmptyString)) r
          | EmptyString => "/*" ++ buf ++ String c EmptyString
          end
      end
  end.

(** [.replace(/\s+/g, ' ')] *)
Fixpoint collapse_spaces (in_run : bool) (s : string) : string :=
  match s with
  | EmptyString => EmptyString
  | String c r =>
      if is_space c then
        if in_run then collapse_spaces true r else String " " (collapse_spaces true r)
      else String c (collapse_spaces false r)
  end.

Definition normalizeQuery (query : string) : string :=
  toUpperCase (trim (collapse_spaces false
    (strip_block_comments None (strip_line_comments false query)))).

(** [new RegExp(`\\b${keyword}\\b`, 'i')] *)
Definition keyword_regex (keyword : string) : regex :=
  RSeq RWordB (RSeq (rlit true keyword) RWordB).

Fixpoint first_forbidden (query : string) (kws : list string) : option string :=
  match kws with
  | [] => None
  | k :: r => if test (keyword_regex k) query then Some k else first_forbidden query r
  end.

Definition checkForbiddenKeywords (query : string) : ValidationResult :=
  match first_forbidden query FORBIDDEN_KEYWORDS with
  | Some keyword =>
      fail ("Forbidden keyword detected: " ++ keyword ++
            ". Only read-only operations are allowed.")
  | None => ok
  end.

Definition checkForbiddenFunctions (query : string) : ValidationResult :=
  match find (includes query) FORBIDDEN_FUNCTIONS with
  | Some func =>
      fail ("Forbidden function detected: " ++ func ++
            ". This function is not allowed for security reasons.")
  | None => ok
  end.

Definition checkAllowedStart (query : string) : ValidationResult :=
  let firstWord := first_word query in
  if existsb (String.eqb firstWord) ALLOWED_KEYWORDS then ok
  else fail ("Query must start with one of: " ++ join ", " ALLOWED_KEYWORDS).

Definition rsp : regex := RStar rspace.

Definition not_quote : regex := RChar (fun c => negb (Ascii.eqb c "'"%char)).

(** [/CONCAT\s*\(\s*0x[0-9a-f]+/i]: the class is matched on canonicalised
    (upper-cased) code units. *)
Definition hex_ci : regex :=
  RChar (fun c => in_range 48 57 (upper_char c) || in_range 65 70 (upper_char c)).

Definition suspiciousPatterns (type : DatabaseType) : list regex :=
  [ RSeq (rchar true ";") (RSeq rsp
      (ralts true ["SELECT"; "INSERT"; "UPDATE"; "DELETE"; "DROP"; "CREATE"; "ALTER"]));
    RSeq (rlit true "UNION") (RSeq (RPlus rspace)
      (RSeq (ROpt (RSeq (rlit true "ALL") (RPlus rspace))) (rlit true "SELECT")));
    RSeq (rchar true "'") (RSeq rsp (RSeq (ralts true ["OR"; "AND"]) (RSeq rsp
      (RSeq (rchar true "'") (RSeq (RStar not_quote) (RSeq (rchar true "'")
      (RSeq rsp (rchar true "=")))))))) ;
    RSeq (rchar true "'") (RSeq rsp (RSeq (ralts true ["OR"; "AND"]) (RSeq rsp
      (RSeq (RPlus rdigit) (RSeq rsp (RSeq (rchar true "=") (RSeq rsp (RPlus rdigit))))))));
    RSeq (rlit true "CONCAT") (RSeq rsp (RSeq (rchar true "(") (RSeq rsp
      (RSeq (rlit true "0x") (RPlus hex_ci)))));
    RSeq (ralts true ["SLEEP"; "BENCHMARK"]) (RSeq rsp (rchar true "(")) ] ++
  (match type with
   | MySQL =>
       [RSeq (rlit true "INFORMATION_SCHEMA.") (RSeq (RPlus rword)
          (RSeq (RPlus rspace) (ralts true ["WHERE"; "AND"; "OR"])))]
   | PostgreSQL => []
   end).

Definition checkSqlInjectionPatterns (query : string) (type : DatabaseType) : ValidationResult :=
  if existsb (fun pattern => test pattern query) (suspiciousPatterns type)
  then fail "Query contains suspicious patterns that may indicate SQL injection"
  else ok.

Definition checkSuspiciousPatterns (query : string) : ValidationResult :=
  if Nat.ltb 10000 (String.length query) then
    fail "Query is too long. Maximum allowed length is 10,000 characters."
  else if Nat.ltb 50 (count_char "(" query) then
    fail "Query has too many nested expressions. Maximum allowed is 50."
  else ok.

Definition cross_join_regex : regex :=
  RSeq (rlit true "FROM") (RSeq (RPlus rspace) (RSeq (RPlus rword)
    (RSeq rsp (RSeq (rchar true ",") (RSeq rsp (RPlus rword)))))).

Definition getWarnings (query : string) : list string :=
  (if includes query "SELECT *"
   then ["Using SELECT * may return large result sets. Consider specifying specific columns."]
   else []) ++
  (if includes query "ORDER BY" && negb (includes query "LIMIT")
   then ["ORDER BY without LIMIT may be slow on large tables."] else []) ++
  (if includes query "LIKE %" || includes query "LIKE '%"
   then ["Leading wildcard in LIKE patterns may cause slow queries."] else []) ++
  (if test cross_join_regex query && negb (includes query "WHERE")
   then ["Potential cartesian product detected. Consider adding WHERE conditions."]
   else []).

Definition validateQuery (query : string) (type : DatabaseType) : ValidationResult :=
  if String.eqb (trim query) EmptyString then fail "Query cannot be empty" else
  let normalizedQuery := normalizeQuery query in
  let forbiddenCheck := checkForbiddenKeywords normalizedQuery in
  if negb (isValid forbiddenCheck) then forbiddenCheck else
  let functionCheck := checkForbiddenFunctions normalizedQuery in
  if negb (isValid functionCheck) then functionCheck else
  let allowedCheck := checkAllowedStart normalizedQuery in
  if negb (isValid allowedCheck) then allowedCheck else
  let injectionCheck := checkSqlInjectionPatterns normalizedQuery type in
  if negb (isValid injectionCheck) then injectionCheck else
  let suspiciousCheck := checkSuspiciousPatterns normalizedQuery in
  if negb (isValid suspiciousCheck) then suspiciousCheck else
  mkResult true None (Some (getWarnings normalizedQuery)).

(** [/^[a-zA-Z_][a-zA-Z0-9_$]*$|^`[^`]+`$/] *)
Definition ident_lead (c : ascii) : bool :=
  in_range 97 122 c || in_range 65 90 c || Ascii.eqb c "_"%char.

Definition ident_body (c : ascii) : bool :=
  ident_lead c || in_range 48 57 c || Ascii.eqb c "$"%char.

Definition not_backtick (c : ascii) : bool := negb (Ascii.eqb c "`"%char).

Definition quoted_regex : regex :=
  RSeq RBol (RSeq (rchar false "`") (RSeq (RPlus (RChar not_backtick))
    (RSeq (rchar false "`") REol))).

Definition identifier_regex : regex :=
  RAlt (RSeq RBol (RSeq (RChar ident_lead) (RSeq (RStar (RChar ident_body)) REol)))
       quoted_regex.

(** [identifier.replace(...)]: removes every backtick and every double
    quote (code 34). *)
Fixpoint strip_quotes (s : string) : string :=
  match s with
  | EmptyString => EmptyString
  | String c r =>
      if Ascii.eqb c "`"%char || Ascii.eqb c "034"%char
      then strip_quotes r else String c (strip_quotes r)
  end.

Definition validateIdentifier (identifier : string) : ValidationResult :=
  if String.eqb (trim identifier) EmptyString then fail "Identifier cannot be empty" else
  if negb (test identifier_regex (trim identifier)) then
    fail "Invalid identifier format. Use only letters, numbers, underscore, and dollar sign."
  else if Nat.ltb 64 (String.length (strip_quotes identifier)) then
    fail "Identifier too long. Maximum length is 64 characters."
  else ok.

End QueryValidator.

(* ------------------------------------------------------------------ *)
(** ** The WHATWG URL parser behind [new URL(input)]

    The part of the basic URL parser that decides success and fills in
    scheme, username, password, hostname and port, for input without a base
    URL.  Two simplifications: a host between brackets (an IPv6 literal) is
    refused, and the special schemes (http, ws, ftp, file, ...) go through the
    same authority rules as the others.  The connection-URL validator only
    accepts input that starts with [mysql://], [postgresql://] or
    [postgres://], non-special schemes with an authority, for which the
    model follows the standard. *)

Module URL.
Import JsString.
Local Open Scope string_scope.

Record URLRecord : Type := mkURL {
  scheme : string;
  username : string;
  password : string;
  hostname : string;
  port : option nat
}.

(** Leading and trailing C0 control or space are removed, then every
    ASCII tab or newline. *)
Definition is_c0_or_space (c : ascii) : bool := Nat.leb (code c) 32.

Fixpoint strip_leading_c0 (s : string) : string :=
  match s with
  | EmptyString => EmptyString
  | String c r => if is_c0_or_space c then strip_leading_c0 r else s
  end.

Definition strip_c0 (s : string) : string :=
  rev_str (strip_leading_c0 (rev_str (strip_leading_c0 s) EmptyString)) EmptyString.

Fixpoint remove_tab_newline (s : string) : string :=
  match s with
  | EmptyString => EmptyString
  | String c r =>
      if Nat.eqb (code c) 9 || Nat.eqb (code c) 10 || Nat.eqb (code c) 13
      then remove_tab_newline r else String c (remove_tab_newline r)
  end.

Definition is_alpha (c : ascii) : bool := in_range 97 122 c || in_range 65 90 c.

Definition is_scheme_char (c : ascii) : bool :=
  is_alpha c || in_range 48 57 c || Ascii.eqb c "+"%char
  || Ascii.eqb c "-"%char || Ascii.eqb c "."%char.

Definition lower_char (c : ascii) : ascii :=
  if in_range 65 90 c then ascii_of_nat (code c + 32) else c.

(** Scheme state: the lower-cased scheme and what follows the colon. *)
Fixpoint scheme_state (s : string) : option (string * string) :=
  match s with
  | EmptyString => None
  | String c r =>
      if Ascii.eqb c ":"%char then Some (EmptyString, r)
      else if is_scheme_char c then
        match scheme_state r with
        | Some (sc, rest) => Some (String (lower_char c) sc, rest)
        | None => None
        end
      else None
  end.

Definition hex_digit (n : nat) : ascii :=
  if Nat.ltb n 10 then ascii_of_nat (48 + n) else ascii_of_nat (55 + n).

Definition percent_encode_char (c : ascii) : string :=
  String "%" (String (hex_digit (code c / 16)) (String (hex_digit (code c mod 16)) EmptyString)).

Definition in_list (c : ascii) (l : string) : bool :=
  existsb (Ascii.eqb c) (list_ascii_of_string l).

(** The userinfo percent-encode set. *)
Definition userinfo_encode (c : ascii) : bool :=
  Nat.ltb (code c) 32 || Nat.ltb 126 (code c) ||
  in_list c (" #<>?`{}/:;=@[\]^|" ++ String "034"%char EmptyString).

Definition c0_encode (c : ascii) : bool := Nat.ltb (code c) 32 || Nat.ltb 126 (code c).

Fixpoint percent_encode (enc : ascii -> bool) (s : string) : string :=
  match s with
  | EmptyString => EmptyString
  | String c r =>
      (if enc c then percent_encode_char c else String c EmptyString) ++ percent_encode enc r
  end.

(** The authority ends at the first [/], [?] or [#]. *)
Fixpoint split_authority (s : string) : string :=
  match s with
  | EmptyString => EmptyString
  | String c r =>
      if Ascii.eqb c "/"%char || Ascii.eqb c "?"%char || Ascii.eqb c "#"%char
      then EmptyString else String c (split_authority r)
  end.

(** Split at the last occurrence of [c]: [Some (before, after)]. *)
Fixpoint split_last (c : ascii) (s : string) : option (string * string) :=
  match s with
  | EmptyString => None
  | String d r =>
      match split_last c r with
      | Some (b, a) => Some (String d b, a)
      | None => if Ascii.eqb c d then Some (EmptyString, r) else None
      end
  end.

(** Split at the first occurrence of [c]. *)
Fixpoint split_first (c : ascii) (s : string) : option (string * string) :=
  match s with
  | EmptyString => None
  | String d r =>
      if Ascii.eqb c d then Some (EmptyString, r)
      else match split_first c r with
           | Some (b, a) => Some (String d b, a)
           | None => None
           end
  end.

Definition forbidden_host_code_point (c : ascii) : bool :=
  Nat.eqb (code c) 0 || Nat.eqb (code c) 9 || Nat.eqb (code c) 10 || Nat.eqb (code c) 13 ||
  in_list c " #/:<>?@[\]^|".

(** Opaque-host parser of a non-special URL. *)
Definition opaque_host_parse (s : string) : option string :=
  if existsb forbidden_host_code_point (list_ascii_of_string s) then None
  else Some (percent_encode c0_encode s).

Fixpoint parse_digits (s : string) (acc : nat) : option nat :=
  match s with
  | EmptyString => Some acc
  | String c r => if is_digit c then parse_digits r (acc * 10 + (code c - 48)) else None
  end.

(** Port state. *)
Definition port_state (s : string) : option (option nat) :=
  match s with
  | EmptyString => Some None
  | _ =>
      match parse_digits s 0 with
      | Some n => if Nat.ltb 65535 n then None else Some (Some n)
      | None => None
      end
  end.

(** Host state followed by port state. *)
Definition host_port (s : string) : option (string * option nat) :=
  match split_first ":"%char s with
  | Some (h, p) =>
      match h with
      | EmptyString => None
      | _ =>
          match opaque_host_parse h, port_state p with
          | Some host, Some pt => Some (host, pt)
          | _, _ => None
          end
      end
  | None =>
      match s with
      | EmptyString => Some (EmptyString, None)
      | _ => match opaque_host_parse s with Some host => Some (host, None) | None => None end
      end
  end.

(** Authority state: userinfo before the last [@], split at its first [:]. *)
Definition authority (sc : string) (s : string) : option URLRecord :=
  let auth := split_authority s in
  match split_last "@"%char auth with
  | Some (userinfo, hostpart) =>
      match hostpart with
      | EmptyString => None
      | _ =>
          let '(user, pass) :=
            match split_first ":"%char userinfo with
            | Some (u, p) => (u, p)
            | None => (userinfo, EmptyString)
            end in
          match host_port hostpart with
          | Some (h, pt) =>
              Some (mkURL sc (percent_encode userinfo_encode user)
                             (percent_encode userinfo_encode pass) h pt)
          | None => None
          end
      end
  | None =>
      match host_port auth with
      | Some (h, pt) => Some (mkURL sc EmptyString EmptyString h pt)
      | None => None
      end
  end.

(** [new URL(input)]: [None] when the constructor throws. *)
Definition parse (input : string) : option URLRecord :=
  let s := remove_tab_newline (strip_c0 input) in
  match s with
  | String c _ =>
      if is_alpha c then
        match scheme_state s with
        | Some (sc, String "/" (String "/" rest)) => authority sc rest
        | Some (sc, _) => Some (mkURL sc EmptyString EmptyString EmptyString None)
        | None => None
        end
      else None
  | EmptyString => None
  end.

End URL.

(* ------------------------------------------------------------------ *)
(** ** [InputValidator] (dist/validators/input-validator.js, 1-294)

    A zod schema [z.string().min(..).max(..).regex(..)] runs all its checks
    and collects one issue per failed check; [.refine] runs on the value
    after the string checks (which leave the result dirty, not aborted).
    [schema.parse] throws a [ZodError] exactly when some issue was
    collected, and the validators report [issues.map(e => e.message).join(', ')]. *)

Module InputValidator.
Import JsString Regex.
Local Open Scope string_scope.

Definition from_issues (issues : list string) : ValidationResult :=
  match issues with
  | [] => ok
  | _ => fail (join ", " issues)
  end.

Definition check (failed : bool) (message : string) : list string :=
  if failed then [message] else [].

(** [z.string().min(1, m1).max(64, m2).regex(re, m3)] *)
Definition name_schema (re : regex) (m1 m2 m3 : string) (s : string) : list string :=
  check (Nat.ltb (String.length s) 1) m1 ++
  check (Nat.ltb 64 (String.length s)) m2 ++
  check (negb (test re s)) m3.

Definition name_lead (c : ascii) : bool :=
  in_range 97 122 c || in_range 65 90 c || Ascii.eqb c "_"%char.

(** [[a-zA-Z0-9_$-]] *)
Definition name_body (c : ascii) : bool :=
  name_lead c || in_range 48 57 c || Ascii.eqb c "$"%char || Ascii.eqb c "-"%char.

Definition plain_name_regex : regex :=
  RSeq RBol (RSeq (RChar name_lead) (RSeq (RStar (RChar name_body)) REol)).

(** [/^[a-zA-Z_][a-zA-Z0-9_$-]*$|^`[^`]+`$/] *)
Definition quotable_name_regex : regex := RAlt plain_name_regex QueryValidator.quoted_regex.

Definition databaseNameSchema : string -> list string :=
  name_schema plain_name_regex "Database name cannot be empty"
    "Database name cannot exceed 64 characters" "Invalid database name format".

Definition tableNameSchema : string -> list string :=
  name_schema quotable_name_regex "Table name cannot be empty"
    "Table name cannot exceed 64 characters" "Invalid table name format".

Definition columnNameSchema : string -> list string :=
  name_schema quotable_name_regex "Column name cannot be empty"
    "Column name cannot exceed 64 characters" "Invalid column name format".

Definition validateDatabaseName (name : string) : ValidationResult :=
  from_issues (databaseNameSchema name).

Definition validateTableName (name : string) : ValidationResult :=
  from_issues (tableNameSchema name).

Definition validateColumnName (name : string) : ValidationResult :=
  from_issues (columnNameSchema name).

(** The second refinement: [parsed.hostname && parsed.username &&
    parsed.password], [false] when [new URL] throws. *)
Definition has_credentials (url : string) : bool :=
  match URL.parse url with
  | Some parsed =>
      negb (String.eqb (URL.hostname parsed) EmptyString)
      && negb (String.eqb (URL.username parsed) EmptyString)
      && negb (String.eqb (URL.password parsed) EmptyString)
  | None => false
  end.

Definition connectionUrlSchema (url : string) : list string :=
  check (match URL.parse url with Some _ => false | None => true end) "Invalid url" ++
  check (negb (startsWith url "mysql://" || startsWith url "postgresql://"
               || startsWith url "postgres://"))
        "URL must start with mysql://, postgresql://, or postgres://" ++
  check (negb (has_credentials url)) "URL must contain hostname, username, and password".

Definition validateConnectionUrl (url : string) : ValidationResult :=
  from_issues (connectionUrlSchema url).

End InputValidator.

(* ------------------------------------------------------------------ *)
(** ** JavaScript values

    Values read from driver rows and from EXPLAIN output.  Numbers are
    modelled as integers: plan costs are only copied, never computed.  An
    object is its list of own properties in enumeration order, without two
    equal keys. *)

Module Js.
Import JsString.
Local Open Scope string_scope.

Inductive jsval : Type :=
| JUndef
| JNull
| JBool (b : bool)
| JNum (n : Z)
| JStr (s : string)
| JArr (l : list jsval)
| JObj (props : list (string * jsval)).

Fixpoint lookup (props : list (string * jsval)) (k : string) : jsval :=
  match props with
  | [] => JUndef
  | (k', v) :: r => if String.eqb k k' then v else lookup r k
  end.

(** [v[k]] for a property name that is not an index nor [length]: only
    objects have such properties.  The caller checks that [v] is neither
    [null] nor [undefined] where the source would throw. *)
Definition member (v : jsval) (k : string) : jsval :=
  match v with
  | JObj props => lookup props k
  | _ => JUndef
  end.

(** [v?.[0]] *)
Definition idx0 (v : jsval) : jsval :=
  match v with
  | JArr (x :: _) => x
  | JObj props => lookup props "0"
  | JStr (String c _) => JStr (String c EmptyString)
  | _ => JUndef
  end.

Definition truthy (v : jsval) : bool :=
  match v with
  | JUndef | JNull => false
  | JBool b => b
  | JNum n => negb (Z.eqb n 0)
  | JStr s => negb (String.eqb s EmptyString)
  | JArr _ | JObj _ => true
  end.

(** [v === 'lit'] *)
Definition is_str (v : jsval) (lit : string) : bool :=
  match v with JStr s => String.eqb s lit | _ => false end.

(** [`${v}`] *)
Fixpoint to_template (v : jsval) : string :=
  match v with
  | JUndef => "undefined"
  | JNull => "null"
  | JBool true => "true"
  | JBool false => "false"
  | JNum n => Z_to_dec n
  | JStr s => s
  | JArr l =>
      join "," (map (fun x => match x with
                              | JUndef | JNull => EmptyString
                              | _ => to_template x
                              end) l)
  | JObj _ => "[object Object]"
  end.

End Js.

(* ------------------------------------------------------------------ *)
(** ** Plan summaries ([DatabaseManager.summarizePlan], manager.ts 988-1041)

    A traversal that throws (a [TypeError]) yields [None]. *)

Module Plan.
Import JsString Js.
Local Open Scope string_scope.

Record PlanSummary : Type := mkSummary {
  cost : jsval;
  potentialIssues : list string;
  operations : list jsval
}.

Definition push_operation (op : jsval) (s : PlanSummary) : PlanSummary :=
  mkSummary (cost s) (potentialIssues s) (app (operations s) [op]).

Definition push_issue (issue : string) (s : PlanSummary) : PlanSummary :=
  mkSummary (cost s) (app (potentialIssues s) [issue]) (operations s).

Definition set_cost (c : jsval) (s : PlanSummary) : PlanSummary :=
  mkSummary c (potentialIssues s) (operations s).

Definition empty_summary : PlanSummary := mkSummary (JNum 0) [] [].

(** The visit of one node, before its children. *)
Definition visit_postgres_node (plan : jsval) (summary : PlanSummary) : PlanSummary :=
  let nodeType := member plan "Node Type" in
  let summary := push_operation nodeType summary in
  if is_str nodeType "Seq Scan"
  then push_issue ("Full table scan on " ++ to_template (member plan "Relation Name")) summary
  else summary.

(** [traversePostgresPlan]: [for (const subPlan of plan.Plans)] when
    [plan.Plans] is truthy; a string iterates over its characters (values
    without properties) and any other truthy non-array throws. *)
Fixpoint traversePostgresPlan (plan : jsval) (summary : PlanSummary) {struct plan}
  : option PlanSummary :=
  match plan with
  | JUndef | JNull => None
  | JObj props =>
      let summary := visit_postgres_node plan summary in
      (fix find_plans (ps : list (string * jsval)) : option PlanSummary :=
         match ps with
         | [] => Some summary
         | (k, v) :: r =>
             if String.eqb k "Plans" then
               match v with
               | JArr subPlans =>
                   (fix go (l : list jsval) (acc : PlanSummary) : option PlanSummary :=
                      match l with
                      | [] => Some acc
                      | subPlan :: l' =>
                          match traversePostgresPlan subPlan acc with
                          | Some acc' => go l' acc'
                          | None => None
                          end
                      end) subPlans summary
               | JStr s =>
                   Some (fold_left (fun acc _ => push_operation JUndef acc)
                           (list_ascii_of_string s) summary)
               | _ => if truthy v then None else Some summary
               end
             else find_plans r
         end) props
  | _ => Some (visit_postgres_node plan summary)
  end.

(** [traverseMySQLPlan]: [for (const key in node)] visits the own
    properties (array elements) in order and descends into those whose
    value is a non-null object. *)
Fixpoint traverseMySQLPlan (node : jsval) (summary : PlanSummary) {struct node} : PlanSummary :=
  let summary :=
    let table := member node "table" in
    if truthy table then
      let accessType := member table "access_type" in
      let summary := push_operation accessType summary in
      if is_str accessType "ALL"
      then push_issue ("Full table scan on " ++ to_template (member table "table_name")) summary
      else summary
    else summary in
  match node with
  | JObj props =>
      (fix go (ps : list (string * jsval)) (acc : PlanSummary) : PlanSummary :=
         match ps with
         | [] => acc
         | (_, v) :: r =>
             match v with
             | JObj _ | JArr _ => go r (traverseMySQLPlan v acc)
             | _ => go r acc
             end
         end) props summary
  | JArr elems =>
      (fix go (l : list jsval) (acc : PlanSummary) : PlanSummary :=
         match l with
         | [] => acc
         | v :: r =>
             match v with
             | JObj _ | JArr _ => go r (traverseMySQLPlan v acc)
             | _ => go r acc
             end
         end) elems summary
  | _ => summary
  end.

Definition summarizePlan (plan : jsval) (type : DatabaseType) : option PlanSummary :=
  match type with
  | PostgreSQL =>
      let first := member plan "Plan" in
      let rootPlan := if truthy first then first else member (idx0 plan) "Plan" in
      if truthy rootPlan then
        traversePostgresPlan rootPlan (set_cost (member rootPlan "Total Cost") empty_summary)
      else Some empty_summary
  | MySQL =>
      let queryBlock := member plan "query_block" in
      if truthy queryBlock then
        Some (traverseMySQLPlan queryBlock
                (set_cost (member (member queryBlock "cost_info") "query_cost") empty_summary))
      else Some empty_summary
  end.

End Plan.

(* ------------------------------------------------------------------ *)
(** ** [DatabaseManager] (src/database/manager.ts, 369-1042)

    Each operation runs in a small state-and-exception monad whose state is
    the trace of calls made to the connection layer ([DatabaseConnection]):
    opening a connection, executing SQL, closing.  The registered databases
    ([this.databases], a [Map]) are an association list read by [get].  The
    connection layer and [JSON.parse] are parameters of the section. *)

Module Manager.
Import JsString Js Plan.
Local Open Scope string_scope.

Record DatabaseConfig : Type := mkConfig {
  name : string;
  url : string;
  type : DatabaseType;
  database : string
}.

Definition row : Type := list (string * jsval).

Inductive event : Type :=
| Connect (url : string)
| Execute (type : DatabaseType) (sql : string) (params : list jsval)
| Close.

Inductive exn : Type :=
| DatabaseError (msg : string)
| ValidationError (msg : string)
| TypeError.

Definition M (A : Type) : Type := list event -> (exn + A) * list event.

Definition ret {A} (a : A) : M A := fun tr => (inr a, tr).
Definition throw {A} (e : exn) : M A := fun tr => (inl e, tr).
Definition bind {A B} (m : M A) (f : A -> M B) : M B :=
  fun tr => match m tr with
            | (inl e, tr') => (inl e, tr')
            | (inr a, tr') => f a tr'
            end.
Definition emit (ev : event) : M unit := fun tr => (inr tt, app tr [ev]).

(** [try { m } finally { fin }]: an exception of [fin] replaces the outcome
    of [m]. *)
Definition try_finally {A} (m : M A) (fin : M unit) : M A :=
  fun tr => match m tr with
            | (res, tr') =>
                match fin tr' with
                | (inl e, tr'') => (inl e, tr'')
                | (inr _, tr'') => (res, tr'')
                end
            end.

Notation "x <- m ;; k" := (bind m (fun x => k)) (at level 61, m at next level, right associativity).
Notation "m ;;; k" := (bind m (fun _ => k)) (at level 61, right associativity).

(** [this.databases.get(name)] *)
Fixpoint get (dbs : list (string * DatabaseConfig)) (k : string) : option DatabaseConfig :=
  match dbs with
  | [] => None
  | (k', c) :: r => if String.eqb k k' then Some c else get r k
  end.

(** [`${validation.error}`] *)
Definition error_text (e : option string) : string :=
  match e with Some s => s | None => "undefined" end.

Definition maxRowLimit : Z := 1000.

(** [addRowLimitToQuery] (481-492); both dialect branches build the same
    text. *)
Definition addRowLimitToQuery (maxRowLimit : Z) (query : string) (type : DatabaseType) : string :=
  let trimmedQuery := toUpperCase (trim query) in
  if startsWith trimmedQuery "SELECT" && negb (includes trimmedQuery "LIMIT") then
    match type with
    | PostgreSQL => trim query ++ " LIMIT " ++ Z_to_dec maxRowLimit
    | MySQL => trim query ++ " LIMIT " ++ Z_to_dec maxRowLimit
    end
  else query.

Definition dq (s : string) : string := String "034"%char (s ++ String "034"%char EmptyString).

Definition fk_query_mysql : string :=
"
      SELECT
        rc.CONSTRAINT_NAME as constraintName,
        kcu.TABLE_NAME as tableName,
        kcu.COLUMN_NAME as columnName,
        kcu.REFERENCED_TABLE_NAME as referencedTableName,
        kcu.REFERENCED_COLUMN_NAME as referencedColumnName,
        rc.UPDATE_RULE as updateRule,
        rc.DELETE_RULE as deleteRule
      FROM INFORMATION_SCHEMA.REFERENTIAL_CONSTRAINTS rc
      JOIN INFORMATION_SCHEMA.KEY_COLUMN_USAGE kcu
        ON rc.CONSTRAINT_NAME = kcu.CONSTRAINT_NAME
        AND rc.CONSTRAINT_SCHEMA = kcu.CONSTRAINT_SCHEMA
      WHERE rc.CONSTRAINT_SCHEMA = ?
    ".

Definition fk_query_postgres : string :=
"
      SELECT
        tc.constraint_name as " ++ dq "constraintName" ++ ",
        tc.table_name as " ++ dq "tableName" ++ ",
        kcu.column_name as " ++ dq "columnName" ++ ",
        ccu.table_name AS " ++ dq "referencedTableName" ++ ",
        ccu.column_name AS " ++ dq "referencedColumnName" ++ "
      FROM information_schema.table_constraints AS tc
      JOIN information_schema.key_column_usage AS kcu
        ON tc.constraint_name = kcu.constraint_name
        AND tc.table_schema = kcu.table_schema
      JOIN information_schema.constraint_column_usage AS ccu
        ON ccu.constraint_name = tc.constraint_name
        AND ccu.table_schema = tc.table_schema
      WHERE tc.constraint_type = 'FOREIGN KEY'
        AND (tc.table_schema = 'public' OR tc.table_schema = $1)
    ".

Record ForeignKeyInfo : Type := mkForeignKey {
  constraintName : jsval;
  tableName : jsval;
  columnName : jsval;
  referencedTableName : jsval;
  referencedColumnName : jsval;
  updateRule : jsval;
  deleteRule : jsval
}.

Definition fk_of_mysql_row (r : row) : ForeignKeyInfo :=
  mkForeignKey (lookup r "constraintName") (lookup r "tableName") (lookup r "columnName")
    (lookup r "referencedTableName") (lookup r "referencedColumnName")
    (lookup r "updateRule") (lookup r "deleteRule").

Definition fk_of_postgres_row (r : row) : ForeignKeyInfo :=
  mkForeignKey (lookup r "constraintName") (lookup r "tableName") (lookup r "columnName")
    (lookup r "referencedTableName") (lookup r "referencedColumnName")
    JUndef JUndef.

(** [if (tableName)] *)
Definition present (s : option string) : option string :=
  match s with
  | Some t => if String.eqb t EmptyString then None else Some t
  | None => None
  end.

(** [/^[A-Z_]+$/] *)
Definition filter_key_ok (key : string) : bool :=
  match key with
  | EmptyString => false
  | _ => forallb (fun c => in_range 65 90 c || Ascii.eqb c "_"%char) (list_ascii_of_string key)
  end.

Definition lower_char (c : ascii) : ascii :=
  if in_range 65 90 c || (in_range 192 222 c && negb (Nat.eqb (code c) 215))
  then ascii_of_nat (code c + 32) else c.

Definition toLowerCase (s : string) : string :=
  string_of_list_ascii (map lower_char (list_ascii_of_string s)).

Definition nat_to_dec (n : nat) : string := Z_to_dec (Z.of_nat n).

(** The filter loop: WHERE clauses and parameters in [Object.entries] order. *)
Fixpoint filter_clauses (type : DatabaseType) (filters : list (string * string))
    (clauses : list string) (params : list jsval) : exn + (list string * list jsval) :=
  match filters with
  | [] => inr (clauses, params)
  | (key, value) :: r =>
      if negb (filter_key_ok key) then
        inl (ValidationError ("Invalid filter key: " ++ key ++
                              ". Only uppercase letters and underscores allowed."))
      else
        let clause :=
          match type with
          | PostgreSQL => toLowerCase key ++ " = $" ++ nat_to_dec (length params + 1)
          | MySQL => key ++ " = ?"
          end in
        filter_clauses type r (app clauses [clause]) (app params [JStr value])
  end.

(** The SQL text and parameters [queryInformationSchema] builds (891-920). *)
Definition information_schema_sql (config : DatabaseConfig) (table : string)
    (filters : option (list (string * string))) (limit : Z)
    : exn + (string * list jsval) :=
  match filter_clauses (type config) (match filters with Some f => f | None => [] end) [] [] with
  | inl e => inl e
  | inr (whereClauses, params) =>
      let '(whereClauses, params) :=
        match type config with
        | PostgreSQL =>
            (("table_schema = $" ++ nat_to_dec (length params + 1)) :: whereClauses,
             app params [JStr "public"])
        | MySQL => ("TABLE_SCHEMA = ?" :: whereClauses, JStr (database config) :: params)
        end in
      let sql := "SELECT * FROM INFORMATION_SCHEMA." ++ table in
      let sql := match whereClauses with
                 | [] => sql
                 | _ => sql ++ " WHERE " ++ join " AND " whereClauses
                 end in
      inr (sql ++ " LIMIT " ++ Z_to_dec (Z.min (Z.max limit 1) 1000), params)
  end.

Record AnalyzeResult : Type := mkAnalyze {
  a_database : string;
  a_type : DatabaseType;
  a_query : string;
  plan : jsval;
  summary : PlanSummary
}.

Section Operations.

(** [DatabaseConnection.parseConnectionUrl] then [createConnection]:
    [Some msg] when it throws. *)
Variable connect : string -> option string.
(** The driver call inside [DatabaseConnection.executeQuery]: the rows, or
    the message of the error it throws. *)
Variable exec_result : DatabaseType -> string -> list jsval -> string + list row.
(** [JSON.parse]: [None] when it throws. *)
Variable json_parse : string -> option jsval.

Variable databases : list (string * DatabaseConfig).

Definition not_found {A} (dbName : string) : M A :=
  throw (DatabaseError ("Database not found: " ++ dbName)).

Definition getConnection (dbName : string) : M unit :=
  match get databases dbName with
  | None => not_found dbName
  | Some config =>
      emit (Connect (url config)) ;;;
      match connect (url config) with
      | Some msg => throw (DatabaseError msg)
      | None => ret tt
      end
  end.

Definition execute (type : DatabaseType) (sql : string) (params : list jsval) : M (list row) :=
  emit (Execute type sql params) ;;;
  match exec_result type sql params with
  | inl msg => throw (DatabaseError ("Query execution failed: " ++ msg))
  | inr rows => ret rows
  end.

Definition closeConnection : M unit := emit Close.

(** [connection = await this.getConnection(dbName)] inside [try], closed in
    [finally] when it was obtained. *)
Definition with_connection {A} (dbName : string) (body : M A) : M A :=
  getConnection dbName ;;; try_finally body closeConnection.

Definition executeQuery (dbName : string) (query : string) (params : list jsval)
  : M (list row) :=
  match get databases dbName with
  | None => not_found dbName
  | Some config =>
      let validation := QueryValidator.validateQuery query MySQL in
      if negb (isValid validation) then
        throw (ValidationError ("Query validation failed: " ++ error_text (error validation)))
      else
        with_connection dbName
          (let limitedQuery := addRowLimitToQuery maxRowLimit query (type config) in
           execute (type config) limitedQuery params)
  end.

(** [firstRow[Object.keys(firstRow)[0]]]; [Object.keys] of [undefined]
    throws. *)
Definition first_value (rows : list row) : M jsval :=
  match rows with
  | [] => throw TypeError
  | firstRow :: _ =>
      match firstRow with
      | (_, v) :: _ => ret v
      | [] => ret JUndef
      end
  end.

Definition analyzeQuery (dbName : string) (query : string) : M AnalyzeResult :=
  match get databases dbName with
  | None => not_found dbName
  | Some config =>
      let validation := QueryValidator.validateQuery query MySQL in
      if negb (isValid validation) then
        throw (ValidationError ("Query validation failed: " ++ error_text (error validation)))
      else
        let explainQuery :=
          match type config with
          | PostgreSQL => "EXPLAIN (FORMAT JSON, VERBOSE, ANALYZE FALSE) " ++ query
          | MySQL => "EXPLAIN FORMAT=JSON " ++ query
          end in
        with_connection dbName
          (rows <- execute (type config) explainQuery [] ;;
           val <- first_value rows ;;
           let rawPlan :=
             match type config with
             | PostgreSQL => match val with JArr _ => idx0 val | _ => val end
             | MySQL =>
                 match val with
                 | JStr s => match json_parse s with Some p => p | None => val end
                 | _ => val
                 end
             end in
           match summarizePlan rawPlan (type config) with
           | Some sm => ret (mkAnalyze dbName (type config) query rawPlan sm)
           | None => throw TypeError
           end)
  end.

Definition getForeignKeysPostgres (dbName : string) (tableName : option string)
  : M (list ForeignKeyInfo) :=
  match get databases dbName with
  | None => throw TypeError
  | Some config =>
      let '(query, params) :=
        match present tableName with
        | Some t => (fk_query_postgres ++ " AND tc.table_name = $2", [JStr (database config); JStr t])
        | None => (fk_query_postgres, [JStr (database config)])
        end in
      with_connection dbName
        (rows <- execute (type config) query params ;;
         ret (map fk_of_postgres_row rows))
  end.

Definition getForeignKeys (dbName : string) (tableName : option string)
  : M (list ForeignKeyInfo) :=
  match get databases dbName with
  | None => not_found dbName
  | Some config =>
      match type config with
      | PostgreSQL => getForeignKeysPostgres dbName tableName
      | MySQL =>
          let '(query, params) :=
            match present tableName with
            | Some t => (fk_query_mysql ++ " AND kcu.TABLE_NAME = ?", [JStr (database config); JStr t])
            | None => (fk_query_mysql, [JStr (database config)])
            end in
          let query := query ++ " ORDER BY kcu.TABLE_NAME, rc.CONSTRAINT_NAME" in
          with_connection dbName
            (rows <- execute (type config) query params ;;
             ret (map fk_of_mysql_row rows))
      end
  end.

Definition allowedTables : list string := ["COLUMNS"; "TABLES"; "ROUTINES"].

(** [limit: number = 100]: [None] is an omitted argument. *)
Definition queryInformationSchema (dbName : string) (table : string)
    (filters : option (list (string * string))) (limit : option Z) : M (list row) :=
  let limit := match limit with Some l => l | None => 100%Z end in
  match get databases dbName with
  | None => not_found dbName
  | Some config =>
      if negb (existsb (String.eqb table) allowedTables) then
        throw (ValidationError ("Table '" ++ table ++ "' is not allowed for INFORMATION_SCHEMA queries."))
      else
        match information_schema_sql config table filters limit with
        | inl e => throw e
        | inr (sql, params) => with_connection dbName (execute (type config) sql params)
        end
  end.

End Operations.

End Manager.

(* ------------------------------------------------------------------ *)
(** ** Relationship classification (dist/tools/get-foreign-keys.js, 303-327) *)

Module ForeignKeys.
Import Js.
Local Open Scope string_scope.

Definition determineRelationshipType (updateRule deleteRule : jsval) : string :=
  if is_str deleteRule "CASCADE" then "strong_dependency"
  else if is_str deleteRule "RESTRICT" || is_str deleteRule "NO ACTION" then "protective"
  else if is_str deleteRule "SET NULL" then "optional_reference"
  else "unknown".

Definition determineRelationshipStrength (updateRule deleteRule : jsval) : string :=
  if is_str deleteRule "CASCADE" && is_str updateRule "CASCADE" then "strong"
  else if is_str deleteRule "RESTRICT" || is_str updateRule "RESTRICT" then "medium"
  else "weak".

End ForeignKeys.

(* ------------------------------------------------------------------ *)
(** ** The other helpers of [InputValidator] and [QueryValidator]
    (dist/validators/input-validator.js, 36-40, 128-237, 495-499) *)

Module InputUtilities.
Import JsString Js InputValidator.
Local Open Scope string_scope.

Definition NUL : ascii := "000"%char.

(** [z.string().max(10000, ..).refine(text => !text.includes('\0'), ..)] *)
Definition textInputSchema (text : string) : list string :=
  check (Nat.ltb 10000 (String.length text)) "Input too long" ++
  check (includes text (String NUL EmptyString)) "Input cannot contain null bytes".

Definition validateTextInput (text : string) : ValidationResult :=
  from_issues (textInputSchema text).

(** [[\x00-\x08\x0B\x0C\x0E-\x1F\x7F]] *)
Definition is_control (c : ascii) : bool :=
  Nat.leb (code c) 8 || Nat.eqb (code c) 11 || Nat.eqb (code c) 12 ||
  in_range 14 31 c || Nat.eqb (code c) 127.

(** [.replace(/[..]/g, '')] for a one-code-unit class. *)
Fixpoint remove_chars (p : ascii -> bool) (s : string) : string :=
  match s with
  | EmptyString => EmptyString
  | String c r => if p c then remove_chars p r else String c (remove_chars p r)
  end.

(** [sanitizeString] (149-160); [!input] holds for the empty string only. *)
Definition sanitizeString (input : string) : string :=
  if String.eqb input EmptyString then EmptyString
  else trim (remove_chars is_control (remove_chars (fun c => Ascii.eqb c NUL) input)).

(** [s.endsWith(p)] *)
Definition endsWith (s p : string) : bool :=
  Nat.leb (String.length p) (String.length s) &&
  String.eqb (substring (String.length s - String.length p) (String.length p) s) p.

(** [.replace(/`/g, '``')] *)
Fixpoint double_backticks (s : string) : string :=
  match s with
  | EmptyString => EmptyString
  | String c r =>
      if Ascii.eqb c "`"%char then String "`"%char (String "`"%char (double_backticks r))
      else String c (double_backticks r)
  end.

(** [escapeIdentifier] (163-173) *)
Definition escapeIdentifier (identifier : string) : string :=
  if String.eqb identifier EmptyString then EmptyString
  else if startsWith identifier "`" && endsWith identifier "`" then identifier
  else
    let cleaned := double_backticks identifier in
    "`" ++ cleaned ++ "`".

(** The result of an item validator, [ValidationResult & { data?: T }], and
    of [validateArray], [ValidationResult & { data?: T[] }]. *)
Record ItemResult (T : Type) : Type := mkItem {
  item_valid : bool;
  item_error : option string;
  item_data : option T
}.

Record ArrayResult (T : Type) : Type := mkArray {
  array_valid : bool;
  array_error : option string;
  array_data : option (list T)
}.

Arguments mkItem {T}.
Arguments item_valid {T}.
Arguments item_error {T}.
Arguments item_data {T}.
Arguments mkArray {T}.
Arguments array_valid {T}.
Arguments array_error {T}.
Arguments array_data {T}.

(** [result.error || 'Validation failed'] *)
Definition error_or_default (e : option string) : string :=
  match e with
  | Some s => if String.eqb s EmptyString then "Validation failed" else s
  | None => "Validation failed"
  end.

Section ArrayValidation.

Variable T : Type.
Variable itemValidator : jsval -> ItemResult T.

(** The loop of [validateArray], from index [i]. *)
Fixpoint validate_items (values : list jsval) (i : nat)
    (validatedItems : list T) (errors : list string) : list T * list string :=
  match values with
  | [] => (validatedItems, errors)
  | v :: r =>
      let result := itemValidator v in
      match item_valid result, item_data result with
      | true, Some d => validate_items r (S i) (app validatedItems [d]) errors
      | _, _ =>
          validate_items r (S i) validatedItems
            (app errors ["Item " ++ Z_to_dec (Z.of_nat i) ++ ": " ++
                         error_or_default (item_error result)])
      end
  end.

(** [validateArray] (217-237) *)
Definition validateArray (values : jsval) : ArrayResult T :=
  match values with
  | JArr vs =>
      let '(validatedItems, errors) := validate_items vs 0 [] [] in
      match errors with
      | [] => mkArray true None (Some validatedItems)
      | _ => mkArray false (Some (join ", " errors)) None
      end
  | _ => mkArray false (Some "Value must be an array") None
  end.

End ArrayValidation.

Arguments validateArray {T}.
Arguments validate_items {T}.

(** [QueryValidator.isSimpleReadQuery] (495-499) *)
Definition isSimpleReadQuery (query : string) : bool :=
  let normalized := QueryValidator.normalizeQuery query in
  let firstWord := first_word normalized in
  existsb (String.eqb firstWord) ["SELECT"; "SHOW"; "DESCRIBE"; "DESC"; "EXPLAIN"; "WITH"; "VALUES"].

End InputUtilities.

(* ------------------------------------------------------------------ *)
(** ** [DatabaseConnection.detectDatabaseType] (dist/database/connection.js, 10-24)
    and the registry methods of [DatabaseManager] (manager.ts, 409-440) *)

Module Registry.
Import JsString Manager.
Local Open Scope string_scope.

(** [s.replace(':', '')]: the first occurrence only. *)
Fixpoint replace_first (c : ascii) (s : string) : string :=
  match s with
  | EmptyString => EmptyString
  | String d r => if Ascii.eqb c d then r else String d (replace_first c r)
  end.

(** [new URL(url).protocol] is the scheme followed by a colon; the
    [TypeError] of the constructor has the message [Invalid URL]. *)
Definition detectDatabaseType (url : string) : exn + DatabaseType :=
  match URL.parse url with
  | None => inl (DatabaseError "Invalid connection URL: Invalid URL")
  | Some parsed =>
      let protocol := replace_first ":" (URL.scheme parsed ++ ":") in
      if String.eqb protocol "mysql" then inr MySQL
      else if String.eqb protocol "postgresql" || String.eqb protocol "postgres" then inr PostgreSQL
      else inl (DatabaseError ("Unsupported database protocol: " ++ protocol ++
                               ". Supported protocols: mysql, postgresql, postgres."))
  end.

(** [this.databases.delete(name)]: a [Map] holds each key once. *)
Definition map_delete (dbs : list (string * DatabaseConfig)) (k : string)
  : list (string * DatabaseConfig) :=
  filter (fun e => negb (String.eqb k (fst e))) dbs.

(** [removeDatabase]: the new registry, or the exception.  [addDatabase]
    stores [connection: null] and no method assigns it, so the
    [if (config.connection)] branch never closes anything. *)
Definition removeDatabase (dbs : list (string * DatabaseConfig)) (name : string)
  : exn + list (string * DatabaseConfig) :=
  match get dbs name with
  | None => inl (DatabaseError ("Database not found: " ++ name))
  | Some _ => inr (map_delete dbs name)
  end.

Definition getDatabaseType (dbs : list (string * DatabaseConfig)) (dbName : string)
  : exn + DatabaseType :=
  match get dbs dbName with
  | None => inl (DatabaseError ("Database not found: " ++ dbName))
  | Some config => inr (type config)
  end.

End Registry.

(* ------------------------------------------------------------------ *)
(** ** Vocabulary of the properties *)

Module Vocabulary.
Import JsString Js Plan Manager.
Local Open Scope string_scope.

(** The last code unit of a string. *)
Fixpoint last_char (s : string) : option ascii :=
  match s with
  | EmptyString => None
  | String c EmptyString => Some c
  | String _ r => last_char r
  end.

Definition first_char (s : string) : option ascii :=
  match s with
  | EmptyString => None
  | String c _ => Some c
  end.

Definition word_opt (c : option ascii) : bool :=
  match c with Some c => is_word c | None => false end.

(** [k] occurs in [s] as a whole word: neither the code unit before it nor
    the one after it is a word character. *)
Definition contains_word (s k : string) : Prop :=
  exists p r, s = p ++ k ++ r /\ word_opt (last_char p) = false
              /\ word_opt (first_char r) = false.

(** A PostgreSQL plan node as EXPLAIN (FORMAT JSON) reports it, and the
    JSON object it is serialised to. *)
Inductive pgnode : Type :=
| PgNode (nodeType relationName : string) (totalCost : Z) (children : list pgnode).

Fixpoint encode (n : pgnode) : jsval :=
  match n with
  | PgNode t r c ch =>
      JObj (app [("Node Type", JStr t); ("Relation Name", JStr r); ("Total Cost", JNum c)]
              match ch with
              | [] => []
              | _ => [("Plans", JArr (map encode ch))]
              end)
  end.

Definition total_cost (n : pgnode) : Z := match n with PgNode _ _ c _ => c end.

(** Node types in pre-order. *)
Fixpoint preorder_types (n : pgnode) : list jsval :=
  match n with
  | PgNode t _ _ ch => JStr t :: flat_map preorder_types ch
  end.

(** One issue per sequential scan, in pre-order. *)
Fixpoint seq_scan_issues (n : pgnode) : list string :=
  match n with
  | PgNode t r _ ch =>
      app (if String.eqb t "Seq Scan" then [String.append "Full table scan on " r] else [])
          (flat_map seq_scan_issues ch)
  end.

(** Every [false] result of a validator carries a non-empty message. *)
Definition reports_error (v : ValidationResult) : Prop :=
  isValid v = false -> exists e, error v = Some e /\ e <> EmptyString.

(** The identifier grammar [[A-Za-z_][A-Za-z0-9_$-]*]. *)
Definition grammar_name (s : string) : bool :=
  match s with
  | EmptyString => false
  | String c r =>
      InputValidator.name_lead c && forallb InputValidator.name_body (list_ascii_of_string r)
  end.

(** The same grammar without the hyphen, [[A-Za-z_][A-Za-z0-9_$]*]. *)
Definition ident_grammar_name (s : string) : bool :=
  match s with
  | EmptyString => false
  | String c r =>
      QueryValidator.ident_lead c &&
      forallb QueryValidator.ident_body (list_ascii_of_string r)
  end.

(** [`m`] with [m] non-empty and free of backticks. *)
Definition backtick_wrapped (s : string) : Prop :=
  exists m, s = String "`"%char (m ++ String "`"%char EmptyString) /\ m <> EmptyString /\
            forallb QueryValidator.not_backtick (list_ascii_of_string m) = true.

(** A name of [n] letters [a]. *)
Definition long_name (n : nat) : string := string_of_list_ascii (repeat "a"%char n).

(** Fixtures of the examples. *)

Definition main_db : DatabaseConfig := mkConfig "main" "mysql://u:p@h/app" MySQL "app".

Definition keyword_shape (k : string) : bool :=
  match k with String c _ => is_word c | EmptyString => false end && word_opt (last_char k).

Definition catalog_sql : string :=
  "SELECT * FROM INFORMATION_SCHEMA.TABLES WHERE TABLE_SCHEMA = ? LIMIT 1000".

Definition pg_db : DatabaseConfig := mkConfig "pg" "postgresql://u:p@h/app" PostgreSQL "app".

Definition pg_row : row :=
  [("constraintName", JStr "fk_orders_user"); ("tableName", JStr "orders");
   ("columnName", JStr "user_id"); ("referencedTableName", JStr "users");
   ("referencedColumnName", JStr "id")].

Definition pg_run :=
  getForeignKeys (fun _ => None) (fun _ _ _ => inr [pg_row]) [("pg", pg_db)] "pg" None [].

(** The policy as the spec describes it: the suffix goes after the original
    text. *)
Definition applyRowLimit_spec (maxRows : Z) (q : string) : string :=
  let u := toUpperCase (trim q) in
  if startsWith u "SELECT" && negb (includes u "LIMIT")
  then q ++ " LIMIT " ++ Z_to_dec maxRows else q.

(** What visiting a subtree adds to a summary. *)
Definition after_tree (s : PlanSummary) (n : pgnode) : PlanSummary :=
  mkSummary (cost s) (app (potentialIssues s) (seq_scan_issues n))
            (app (operations s) (preorder_types n)).

(** Reading a doubled backtick as one: the inverse of
    [InputUtilities.double_backticks]. *)
Fixpoint undouble_backticks (s : string) : string :=
  match s with
  | EmptyString => EmptyString
  | String c r =>
      if Ascii.eqb c "`"%char then
        match r with
        | String d r' =>
            if Ascii.eqb d "`"%char then String c (undouble_backticks r')
            else String c (undouble_backticks r)
        | EmptyString => String c EmptyString
        end
      else String c (undouble_backticks r)
  end.

(** An item that its validator accepts, with the data it returns. *)
Definition item_accepted {T : Type} (itemValidator : jsval -> InputUtilities.ItemResult T)
    (v : jsval) (d : T) : Prop :=
  InputUtilities.item_valid (itemValidator v) = true /\
  InputUtilities.item_data (itemValidator v) = Some d.

(** What one run of a [DatabaseManager] operation adds to the trace of the
    connection layer: nothing; a failed connection attempt, whose message is
    the error; or one connection that runs one statement and is closed. *)
Definition session {A : Type} (connect : string -> option string)
    (databases : list (string * DatabaseConfig)) (dbName : string)
    (tr : list event) (out : (exn + A) * list event) : Prop :=
  snd out = tr \/
  exists config, get databases dbName = Some config /\
    ((exists msg, connect (url config) = Some msg /\
        out = (inl (DatabaseError msg), app tr [Connect (url config)])) \/
     (connect (url config) = None /\ exists sql params,
        snd out = app tr [Connect (url config); Execute (type config) sql params; Close])).

(** A summary [s'] extends [s] by operations and by full-table-scan
    issues, never more issues than operations. *)
Definition extends_summary (s s' : PlanSummary) : Prop :=
  exists is os, potentialIssues s' = app (potentialIssues s) is /\
    operations s' = app (operations s) os /\
    Forall (fun i => String.prefix "Full table scan on " i = true) is /\
    (length is <= length os)%nat.

(** The placeholder of each dialect. *)
Definition placeholder (type : DatabaseType) : ascii :=
  match type with MySQL => "?"%char | PostgreSQL => "$"%char end.

Definition example_plan : jsval :=
  JObj [("Plan", JObj [("Node Type", JStr "Seq Scan"); ("Relation Name", JStr "orders");
                       ("Total Cost", JNum 120);
                       ("Plans", JArr [JObj [("Node Type", JStr "Index Scan");
                                             ("Relation Name", JStr "users");
                                             ("Total Cost", JNum 5)]])])].

End Vocabulary.

(* ================================================================== *)
(** * Properties *)

(* ------------------------------------------------------------------ *)
(** ** Strings and the regular-expression matcher *)

Module StringFacts.
Import JsString Regex Vocabulary.
Local Open Scope string_scope.

Lemma app_assoc_str : forall a b c : string, (a ++ b) ++ c = a ++ (b ++ c).
Proof. induction a; intros; simpl; [reflexivity | now rewrite IHa]. Qed.

Lemma app_nil_str : forall a : string, a ++ EmptyString = a.
Proof. induction a; simpl; [reflexivity | now rewrite IHa]. Qed.

Lemma length_app_str : forall a b : string, String.length (a ++ b) = String.length a + String.length b.
Proof. induction a; intros; simpl; [reflexivity | now rewrite IHa]. Qed.

Lemma get_app_right : forall a b n, String.get (String.length a + n) (a ++ b) = String.get n b.
Proof. intros. rewrite Nat.add_comm. symmetry. apply append_correct2. Qed.

Lemma word_at_app : forall a b, word_at (a ++ b) (String.length a) = word_opt (first_char b).
Proof.
  intros. unfold word_at. replace (String.length a) with (String.length a + 0) by lia.
  rewrite get_app_right. destruct b; reflexivity.
Qed.

(** The code unit before position [length p]. *)
Lemma word_before : forall p x,
  match String.length p with 0 => false | S m => word_at (p ++ x) m end
  = word_opt (last_char p).
Proof.
  induction p as [|a p IH]; intros x; [reflexivity|].
  destruct p as [|b p'].
  - reflexivity.
  - specialize (IH x). simpl in IH |- *. exact IH.
Qed.

Lemma last_char_app : forall p k, k <> EmptyString -> last_char (p ++ k) = last_char k.
Proof.
  induction p as [|a p IH]; intros k Hk; [reflexivity|].
  simpl. rewrite IH by assumption.
  destruct p; simpl; destruct k; [congruence| |congruence|]; reflexivity.
Qed.

Lemma ends_rlit : forall w s i,
  (forall j, j < String.length w -> String.get (i + j) s = String.get j w) ->
  ends (rlit true w) s i = [i + String.length w].
Proof.
  induction w as [|a w IH]; intros s i H.
  - simpl. now rewrite Nat.add_0_r.
  - simpl. specialize (H 0) as H0. rewrite Nat.add_0_r in H0. simpl in H0.
    rewrite H0 by lia. unfold rchar. rewrite Ascii.eqb_refl. simpl.
    rewrite IH.
    + simpl. f_equal. lia.
    + intros j Hj. specialize (H (S j)). simpl in H. rewrite <- H by lia. f_equal. lia.
Qed.

Lemma test_at : forall r s i, i <= String.length s -> matches_at r s i = true -> test r s = true.
Proof.
  intros r s i Hi Hm. unfold test. apply existsb_exists. exists i. split; [|exact Hm].
  apply in_seq. lia.
Qed.

(** [\bk\b] finds every whole-word occurrence of a word [k] that begins and
    ends with a word character. *)
Lemma keyword_regex_finds : forall s k c k',
  k = String c k' -> is_word c = true -> word_opt (last_char k) = true ->
  contains_word s k -> test (QueryValidator.keyword_regex k) s = true.
Proof.
  intros s k c k' Hk Hc Hl (p & r & Hs & Hp & Hr).
  apply (test_at _ _ (String.length p)).
  { subst s. rewrite !length_app_str. lia. }
  unfold matches_at, QueryValidator.keyword_regex. simpl ends.
  assert (Hb : xorb (match String.length p with 0 => false | S m => word_at s m end)
                    (word_at s (String.length p)) = true).
  { subst s. rewrite word_before, word_at_app, Hp. subst k. simpl. now rewrite Hc. }
  rewrite Hb. simpl. rewrite app_nil_r.
  rewrite (ends_rlit k s (String.length p)).
  2:{ intros j Hj. subst s. rewrite get_app_right. symmetry. now apply append_correct1. }
  simpl. rewrite app_nil_r.
  replace (String.length p + String.length k) with (String.length (p ++ k))
    by apply length_app_str.
  assert (Hs' : s = (p ++ k) ++ r) by (subst s; now rewrite app_assoc_str).
  rewrite Hs', word_before, word_at_app, Hr.
  rewrite last_char_app by (subst k; discriminate).
  now rewrite Hl.
Qed.

End StringFacts.

(* ------------------------------------------------------------------ *)
(** ** The forbidden-keyword scan *)

Module KeywordScan.
Import JsString Regex Vocabulary QueryValidator StringFacts.
Local Open Scope string_scope.

Lemma forbidden_keywords_shape : forallb keyword_shape FORBIDDEN_KEYWORDS = true.
Proof. vm_compute. reflexivity. Qed.

Lemma first_forbidden_none : forall q kws k,
  first_forbidden q kws = None -> In k kws -> test (keyword_regex k) q = false.
Proof.
  induction kws as [|k' kws IH]; intros k Hn Hin; [destruct Hin|].
  simpl in Hn. destruct (test (keyword_regex k') q) eqn:E; [discriminate|].
  destruct Hin as [<-|Hin]; [exact E | now apply IH].
Qed.

(** C1: a forbidden keyword standing as a whole word anywhere in the
    normalised query makes [validateQuery] return [isValid = false]. *)
Theorem forbidden_keyword_rejected : forall (q k : string) (type : DatabaseType),
  In k FORBIDDEN_KEYWORDS ->
  contains_word (normalizeQuery q) k ->
  isValid (validateQuery q type) = false.
Proof.
  intros q k type Hin Hw. unfold validateQuery.
  destruct (String.eqb (trim q) EmptyString); [reflexivity|].
  cbv zeta. unfold checkForbiddenKeywords.
  destruct (first_forbidden (normalizeQuery q) FORBIDDEN_KEYWORDS) eqn:E; [reflexivity|].
  exfalso.
  pose proof forbidden_keywords_shape as Hshape. rewrite forallb_forall in Hshape.
  specialize (Hshape k Hin). unfold keyword_shape in Hshape.
  destruct k as [|c k'] eqn:Hk; [discriminate|].
  apply andb_prop in Hshape as [Hc Hl].
  rewrite <- Hk in Hl, Hw, Hin.
  pose proof (keyword_regex_finds _ _ c k' Hk Hc Hl Hw) as Ht.
  rewrite (first_forbidden_none _ _ _ E Hin) in Ht. discriminate.
Qed.

Lemma forbidden_keyword_rejected_witness :
  In "DROP" FORBIDDEN_KEYWORDS /\
  contains_word (normalizeQuery "SELECT * FROM t; DROP TABLE t") "DROP" /\
  isValid (validateQuery "SELECT * FROM t; DROP TABLE t" MySQL) = false.
Proof.
  assert (Hin : In "DROP" FORBIDDEN_KEYWORDS) by (simpl; tauto).
  assert (Hw : contains_word (normalizeQuery "SELECT * FROM t; DROP TABLE t") "DROP").
  { exists "SELECT * FROM T; ", " TABLE T". vm_compute. repeat split; reflexivity. }
  split; [exact Hin|]. split; [exact Hw|].
  exact (forbidden_keyword_rejected _ _ MySQL Hin Hw).
Defined.

End KeywordScan.

(* ------------------------------------------------------------------ *)
(** ** Validation results carry their reason *)

Module ErrorReporting.
Import JsString Regex Vocabulary StringFacts.
Local Open Scope string_scope.

Lemma reports_ok : reports_error ok.
Proof. discriminate. Qed.

Lemma reports_fail : forall msg, msg <> EmptyString -> reports_error (fail msg).
Proof. intros msg H _. now exists msg. Qed.

Lemma reports_if : forall (b : bool) v w,
  reports_error v -> reports_error w -> reports_error (if b then v else w).
Proof. now intros []. Qed.

Lemma nonempty_app : forall a b : string, a <> EmptyString -> a ++ b <> EmptyString.
Proof. intros [|c a] b H; [congruence | discriminate]. Qed.

Lemma reports_valid : forall e w, reports_error (mkResult true e w).
Proof. intros e w H. discriminate H. Qed.

Ltac reporting :=
  repeat apply reports_if;
  try match goal with
  | |- reports_error (match ?x with _ => _ end) => destruct x
  end;
  first [ apply reports_ok | apply reports_valid
        | apply reports_fail; discriminate ].

Lemma join_nonempty : forall l, Forall (fun m => m <> EmptyString) l -> l <> [] ->
  join ", " l <> EmptyString.
Proof.
  intros [|x [|y r]] Hf Hl; [congruence| |]; inversion Hf; subst.
  - assumption.
  - simpl join. now apply nonempty_app.
Qed.

Lemma reports_from_issues : forall l, Forall (fun m => m <> EmptyString) l ->
  reports_error (InputValidator.from_issues l).
Proof.
  intros [|x r] Hf; [apply reports_ok|]. apply reports_fail, join_nonempty; [exact Hf | discriminate].
Qed.

Lemma check_nonempty : forall b msg, msg <> EmptyString ->
  Forall (fun m => m <> EmptyString) (InputValidator.check b msg).
Proof. intros [] msg H; unfold InputValidator.check; auto. Qed.

Lemma name_schema_nonempty : forall re m1 m2 m3 s,
  m1 <> EmptyString -> m2 <> EmptyString -> m3 <> EmptyString ->
  Forall (fun m => m <> EmptyString) (InputValidator.name_schema re m1 m2 m3 s).
Proof.
  intros. unfold InputValidator.name_schema.
  repeat (apply Forall_app; split); now apply check_nonempty.
Qed.

Lemma url_schema_nonempty : forall u,
  Forall (fun m => m <> EmptyString) (InputValidator.connectionUrlSchema u).
Proof.
  intros. unfold InputValidator.connectionUrlSchema.
  repeat (apply Forall_app; split); apply check_nonempty; discriminate.
Qed.

(** C8: every validator reports invalidity as a value that carries a
    non-empty error message.  The validators are total functions of their
    input: no input makes them throw. *)
Theorem validators_report_errors : forall (q s u : string) (type : DatabaseType),
  reports_error (QueryValidator.validateQuery q type) /\
  reports_error (QueryValidator.validateIdentifier s) /\
  reports_error (InputValidator.validateConnectionUrl u) /\
  reports_error (InputValidator.validateDatabaseName s) /\
  reports_error (InputValidator.validateTableName s) /\
  reports_error (InputValidator.validateColumnName s).
Proof.
  intros q s u type. repeat split.
  - unfold QueryValidator.validateQuery. cbv zeta.
    repeat apply reports_if;
      unfold QueryValidator.checkForbiddenKeywords,
        QueryValidator.checkForbiddenFunctions in *; reporting.
  - unfold QueryValidator.validateIdentifier. reporting.
  - apply reports_from_issues, url_schema_nonempty.
  - apply reports_from_issues, name_schema_nonempty; discriminate.
  - apply reports_from_issues, name_schema_nonempty; discriminate.
  - apply reports_from_issues, name_schema_nonempty; discriminate.
Qed.

End ErrorReporting.

(* ------------------------------------------------------------------ *)
(** ** Validation before any connection *)

Module ValidationFirst.
Import Manager Vocabulary.
Local Open Scope string_scope.

(** C2: for a registered alias and a query the Query Validator rejects (the
    manager validates with the validator's default dialect, MySQL), both
    [executeQuery] and [analyzeQuery] throw a [ValidationError] and leave
    the event trace untouched: no connection is opened and nothing is
    executed. *)
Theorem rejected_query_never_reaches_database :
  forall connect exec_result json_parse databases dbName config query params tr,
  get databases dbName = Some config ->
  isValid (QueryValidator.validateQuery query MySQL) = false ->
  let e := ValidationError ("Query validation failed: " ++
             error_text (error (QueryValidator.validateQuery query MySQL))) in
  executeQuery connect exec_result databases dbName query params tr = (inl e, tr) /\
  analyzeQuery connect exec_result json_parse databases dbName query tr = (inl e, tr).
Proof.
  intros connect exec_result json_parse databases dbName config query params tr Hget Hinv e.
  unfold executeQuery, analyzeQuery. rewrite Hget. cbv zeta. rewrite Hinv.
  split; reflexivity.
Qed.

Lemma rejected_query_never_reaches_database_witness :
  get [("main", main_db)] "main" = Some main_db /\
  isValid (QueryValidator.validateQuery "DROP TABLE users" MySQL) = false /\
  executeQuery (fun _ => None) (fun _ _ _ => inr []) [("main", main_db)]
    "main" "DROP TABLE users" [] [] =
  (inl (ValidationError ("Query validation failed: " ++
     error_text (error (QueryValidator.validateQuery "DROP TABLE users" MySQL)))), []).
Proof.
  split; [reflexivity|]. split; [vm_compute; reflexivity|].
  apply (rejected_query_never_reaches_database (fun _ => None) (fun _ _ _ => inr [])
           (fun _ => None) [("main", main_db)] "main" main_db "DROP TABLE users" [] []);
    [reflexivity | vm_compute; reflexivity].
Defined.

End ValidationFirst.

(* ------------------------------------------------------------------ *)
(** ** Relationship classification *)

Module Classification.
Import Js ForeignKeys.
Local Open Scope string_scope.

Lemma is_str_spec : forall v lit, is_str v lit = true <-> v = JStr lit.
Proof.
  intros [| | | | s | |] lit; simpl; split; try discriminate; try congruence.
  - now intros ->%String.eqb_eq.
  - intros [= ->]. apply String.eqb_refl.
Qed.

Lemma is_str_false : forall v lit, v <> JStr lit -> is_str v lit = false.
Proof. intros v lit H. destruct (is_str v lit) eqn:E; [|reflexivity]. now apply is_str_spec in E. Qed.

(** C5: the relationship type follows the delete rule alone (CASCADE gives
    strong_dependency, RESTRICT or NO ACTION protective, SET NULL
    optional_reference, anything else unknown); the strength is strong when
    both rules are CASCADE, medium when either rule is RESTRICT, weak
    otherwise.  Rules are JS values: a missing rule is [undefined]. *)
Theorem relationship_classification : forall updateRule deleteRule : jsval,
  (deleteRule = JStr "CASCADE" ->
     determineRelationshipType updateRule deleteRule = "strong_dependency") /\
  (deleteRule = JStr "RESTRICT" \/ deleteRule = JStr "NO ACTION" ->
     determineRelationshipType updateRule deleteRule = "protective") /\
  (deleteRule = JStr "SET NULL" ->
     determineRelationshipType updateRule deleteRule = "optional_reference") /\
  (~ In deleteRule [JStr "CASCADE"; JStr "RESTRICT"; JStr "NO ACTION"; JStr "SET NULL"] ->
     determineRelationshipType updateRule deleteRule = "unknown") /\
  (updateRule = JStr "CASCADE" /\ deleteRule = JStr "CASCADE" ->
     determineRelationshipStrength updateRule deleteRule = "strong") /\
  (updateRule = JStr "RESTRICT" \/ deleteRule = JStr "RESTRICT" ->
     determineRelationshipStrength updateRule deleteRule = "medium") /\
  (~ (updateRule = JStr "CASCADE" /\ deleteRule = JStr "CASCADE") ->
   updateRule <> JStr "RESTRICT" -> deleteRule <> JStr "RESTRICT" ->
     determineRelationshipStrength updateRule deleteRule = "weak") /\
  determineRelationshipType (JStr "CASCADE") (JStr "CASCADE") = "strong_dependency" /\
  determineRelationshipStrength (JStr "CASCADE") (JStr "CASCADE") = "strong" /\
  determineRelationshipType updateRule (JStr "SET NULL") = "optional_reference".
Proof.
  intros u d.
  unfold determineRelationshipType, determineRelationshipStrength.
  repeat split.
  - intros ->. reflexivity.
  - intros [-> | ->]; reflexivity.
  - intros ->. reflexivity.
  - intros Hn. simpl in Hn.
    rewrite !is_str_false by (intros ->; tauto). reflexivity.
  - intros [-> ->]. reflexivity.
  - intros [-> | ->]; simpl; now rewrite ?andb_false_r, ?orb_true_r.
  - intros Hc Hu Hd.
    rewrite (is_str_false u "RESTRICT"), (is_str_false d "RESTRICT") by assumption.
    destruct (is_str d "CASCADE") eqn:E1, (is_str u "CASCADE") eqn:E2; try reflexivity.
    apply is_str_spec in E1, E2. tauto.
Qed.

End Classification.

(* ------------------------------------------------------------------ *)
(** ** The LIMIT of catalog queries *)

Module CatalogLimit.
Import JsString Js Manager Vocabulary.
Local Open Scope string_scope.

Lemma information_schema_sql_limit : forall config table filters limit sql params,
  information_schema_sql config table filters limit = inr (sql, params) ->
  exists prefix, sql = prefix ++ " LIMIT " ++ Z_to_dec (Z.min (Z.max limit 1) 1000).
Proof.
  intros config table filters limit sql params H.
  unfold information_schema_sql in H.
  destruct (filter_clauses _ _ _ _) as [e | [wc ps]]; [discriminate|].
  apply (f_equal (fun r => match r with inr (s, _) => s | inl _ => EmptyString end)) in H.
  destruct (type config); cbv beta iota zeta in H; rewrite <- H; eexists; reflexivity.
Qed.

(** The events one catalog query adds to the trace. *)
Lemma with_execute_events : forall connect exec_result databases dbName ty sql params tr res tr',
  with_connection connect databases dbName
    (execute exec_result ty sql params) tr = (res, tr') ->
  exists added, tr' = app tr added /\
    forall ev, In ev added -> ev = Execute ty sql params \/ exists u, ev = Connect u \/ ev = Close.
Proof.
  intros connect exec_result databases dbName ty sql params tr res tr' H.
  unfold with_connection, getConnection, bind, try_finally, execute, closeConnection,
    emit, not_found, throw, ret in H.
  destruct (get databases dbName) as [config|].
  2:{ injection H as _ <-. exists []. split; [now rewrite app_nil_r | intros ev []]. }
  destruct (connect (url config)).
  - injection H as _ <-. exists [Connect (url config)]. split; [reflexivity|].
    intros ev [<- | []]. right. eauto.
  - destruct (exec_result ty sql params); injection H as _ <-;
      exists [Connect (url config); Execute ty sql params; Close];
      (split; [now rewrite <- !app_assoc|]);
      intros ev [<- | [<- | [<- | []]]];
      first [left; reflexivity | right; exists EmptyString; now right
            | right; eexists; now left].
Qed.

(** C10: whatever limit the caller passes (100 when omitted), every SQL text
    [queryInformationSchema] sends ends in [ LIMIT v] with
    [v = min(max(limit, 1), 1000)], so [1 <= v <= 1000]. *)
Theorem information_schema_limit_clamped :
  forall connect exec_result databases dbName table filters limit tr res tr' ty sql params,
  queryInformationSchema connect exec_result databases dbName table filters limit tr = (res, tr') ->
  In (Execute ty sql params) tr' -> ~ In (Execute ty sql params) tr ->
  let v := Z.min (Z.max (match limit with Some l => l | None => 100%Z end) 1) 1000 in
  (exists prefix, sql = prefix ++ " LIMIT " ++ Z_to_dec v) /\ (1 <= v <= 1000)%Z.
Proof.
  intros connect exec_result databases dbName table filters limit tr res tr' ty sql params
    Hrun Hin Hnew v.
  split; [|lia].
  unfold queryInformationSchema, not_found, throw in Hrun.
  destruct (get databases dbName) as [config|]; [|injection Hrun as _ <-; contradiction].
  destruct (negb _); [injection Hrun as _ <-; contradiction|].
  destruct (information_schema_sql _ _ _ _) as [e | [sql0 params0]] eqn:Hsql;
    [injection Hrun as _ <-; contradiction|].
  apply with_execute_events in Hrun as (added & -> & Hadded).
  apply in_app_or in Hin as [Hin | Hin]; [contradiction|].
  apply Hadded in Hin as [Heq | (u & [Heq | Heq])]; try discriminate.
  injection Heq as -> -> ->.
  exact (information_schema_sql_limit _ _ _ _ _ _ Hsql).
Qed.

Lemma information_schema_limit_clamped_witness :
  let v := Z.min (Z.max 5000 1) 1000 in
  (exists prefix, catalog_sql = prefix ++ " LIMIT " ++ Z_to_dec v) /\ (1 <= v <= 1000)%Z.
Proof.
  apply (information_schema_limit_clamped (fun _ => None) (fun _ _ _ => inr [])
    [("main", main_db)] "main" "TABLES" None (Some 5000%Z) [] (inr [])
    [Connect "mysql://u:p@h/app"; Execute MySQL catalog_sql [JStr "app"]; Close]
    MySQL catalog_sql [JStr "app"]).
  - vm_compute. reflexivity.
  - simpl. auto.
  - simpl. auto.
Defined.

End CatalogLimit.

(* ------------------------------------------------------------------ *)
(** ** Foreign-key rules per dialect *)

Module ForeignKeyRules.
Import Js Manager ForeignKeys Vocabulary.
Local Open Scope string_scope.

Lemma with_execute_map : forall connect exec_result databases dbName ty sql params
    (f : row -> ForeignKeyInfo) tr fks tr',
  with_connection connect databases dbName
    (rows <- execute exec_result ty sql params ;; ret (map f rows)) tr = (inr fks, tr') ->
  exists rows, exec_result ty sql params = inr rows /\ fks = map f rows /\
               In (Execute ty sql params) tr'.
Proof.
  intros connect exec_result databases dbName ty sql params f tr fks tr' H.
  unfold with_connection, getConnection, bind, try_finally, execute, closeConnection,
    emit, not_found, throw, ret in H.
  destruct (get databases dbName) as [config|]; [|discriminate].
  destruct (connect (url config)); [discriminate|].
  destruct (exec_result ty sql params) as [msg | rows]; [discriminate|].
  injection H as <- <-. exists rows. repeat split.
  rewrite <- !app_assoc. apply in_or_app. right. simpl. auto.
Qed.

(** C9: on a PostgreSQL database every descriptor [getForeignKeys] returns
    has [undefined] update and delete rules, so it classifies as unknown and
    weak; on a MySQL database the descriptors are the rows of the executed
    catalog query, rules included. *)
Theorem postgres_foreign_keys_without_rules :
  forall connect exec_result databases dbName config tableName tr fks tr',
  get databases dbName = Some config ->
  getForeignKeys connect exec_result databases dbName tableName tr = (inr fks, tr') ->
  (type config = PostgreSQL -> forall fk, In fk fks ->
     updateRule fk = JUndef /\ deleteRule fk = JUndef /\
     determineRelationshipType (updateRule fk) (deleteRule fk) = "unknown" /\
     determineRelationshipStrength (updateRule fk) (deleteRule fk) = "weak") /\
  (type config = MySQL -> exists sql params rows,
     In (Execute MySQL sql params) tr' /\ exec_result MySQL sql params = inr rows /\
     fks = map fk_of_mysql_row rows).
Proof.
  intros connect exec_result databases dbName config tableName tr fks tr' Hget Hrun.
  unfold getForeignKeys in Hrun. rewrite Hget in Hrun.
  split; intros Hty; rewrite Hty in Hrun.
  - unfold getForeignKeysPostgres in Hrun. rewrite Hget in Hrun.
    destruct (present tableName);
      apply with_execute_map in Hrun as (rows & _ & -> & _);
      intros fk Hin; apply in_map_iff in Hin as (r & <- & _); repeat split.
  - destruct (present tableName);
      apply with_execute_map in Hrun as (rows & Hex & -> & Hin);
      eauto 6.
Qed.

Lemma postgres_foreign_keys_without_rules_witness :
  get [("pg", pg_db)] "pg" = Some pg_db /\
  pg_run = (inr [fk_of_postgres_row pg_row], snd pg_run) /\
  forall fk, In fk [fk_of_postgres_row pg_row] ->
    updateRule fk = JUndef /\ deleteRule fk = JUndef /\
    determineRelationshipType (updateRule fk) (deleteRule fk) = "unknown" /\
    determineRelationshipStrength (updateRule fk) (deleteRule fk) = "weak".
Proof.
  split; [reflexivity|]. split; [vm_compute; reflexivity|].
  apply (postgres_foreign_keys_without_rules (fun _ => None) (fun _ _ _ => inr [pg_row])
           [("pg", pg_db)] "pg" pg_db None [] [fk_of_postgres_row pg_row] (snd pg_run));
    [reflexivity | vm_compute; reflexivity | reflexivity].
Defined.

End ForeignKeyRules.

(* ------------------------------------------------------------------ *)
(** ** The row limit of [executeQuery] *)

Module RowLimit.
Import JsString Manager Vocabulary StringFacts.
Local Open Scope string_scope.

Lemma trimStart_infix : forall a c w b, is_space c = false ->
  exists a', trimStart (a ++ String c w ++ b) = a' ++ String c w ++ b.
Proof.
  induction a as [|d a IH]; intros c w b Hc.
  - exists EmptyString. simpl. now rewrite Hc.
  - simpl. destruct (is_space d).
    + now apply IH.
    + now exists (String d a).
Qed.

Lemma rev_str_acc : forall s acc, rev_str s acc = rev_str s EmptyString ++ acc.
Proof.
  induction s as [|c s IH]; intros acc; [reflexivity|].
  simpl. rewrite (IH (String c acc)), (IH (String c EmptyString)).
  now rewrite app_assoc_str.
Qed.

Lemma rev_str_app : forall a b,
  rev_str (a ++ b) EmptyString = rev_str b EmptyString ++ rev_str a EmptyString.
Proof.
  induction a as [|c a IH]; intros b.
  - simpl. now rewrite app_nil_str.
  - simpl. rewrite (rev_str_acc (a ++ b)), IH, (rev_str_acc a (String c EmptyString)). now rewrite app_assoc_str.
Qed.

Lemma rev_str_involutive : forall s, rev_str (rev_str s EmptyString) EmptyString = s.
Proof.
  induction s as [|c s IH]; [reflexivity|].
  simpl. rewrite (rev_str_acc s (String c EmptyString)), rev_str_app, IH. reflexivity.
Qed.

(** Trimming keeps a word made of non-space characters that sits inside the
    text. *)
Lemma trim_keeps_LIMIT : forall a b,
  exists a' b', trim (a ++ "LIMIT" ++ b) = a' ++ "LIMIT" ++ b'.
Proof.
  intros a b. unfold trim, trimEnd.
  destruct (trimStart_infix a "L" "IMIT" b eq_refl) as [a' ->].
  rewrite !rev_str_app.
  change (rev_str "LIMIT" EmptyString) with (String "T" "IMIL").
  rewrite app_assoc_str.
  destruct (trimStart_infix (rev_str b EmptyString) "T" "IMIL" (rev_str a' EmptyString) eq_refl)
    as [b'' ->].
  rewrite !rev_str_app, rev_str_involutive.
  exists a', (rev_str b'' EmptyString). now rewrite app_assoc_str.
Qed.

Lemma toUpperCase_app : forall a b, toUpperCase (a ++ b) = toUpperCase a ++ toUpperCase b.
Proof. induction a as [|c a IH]; intros b; simpl; [reflexivity | now rewrite IH]. Qed.

Lemma prefix_app : forall w b, String.prefix w (w ++ b) = true.
Proof.
  induction w as [|c w IH]; intros b; [destruct b; reflexivity|].
  simpl. destruct (ascii_dec c c); [apply IH | contradiction].
Qed.

Lemma includes_infix : forall a w b, includes (a ++ w ++ b) w = true.
Proof.
  induction a as [|c a IH]; intros w b.
  - assert (H := prefix_app w b). cbn [String.append].
    destruct w as [|c w]; [destruct b; reflexivity|].
    cbn [String.append] in H |- *. cbn [includes]. now rewrite H.
  - simpl includes. rewrite IH. apply orb_true_r.
Qed.

Lemma includes_LIMIT_after_limit : forall q d,
  includes (toUpperCase (trim (trim q ++ " LIMIT " ++ d))) "LIMIT" = true.
Proof.
  intros q d.
  destruct (trim_keeps_LIMIT (trim q ++ " ") (" " ++ d)) as (a' & b' & H).
  replace (trim q ++ " LIMIT " ++ d) with ((trim q ++ " ") ++ "LIMIT" ++ " " ++ d)
    by (now rewrite !app_assoc_str).
  rewrite H, !toUpperCase_app. apply includes_infix.
Qed.

(** C3, counterexample: a query with surrounding white space is trimmed
    before the suffix is appended. *)
Lemma row_limit_original_text_counterexample :
  addRowLimitToQuery maxRowLimit "  SELECT * FROM t " MySQL
  <> applyRowLimit_spec maxRowLimit "  SELECT * FROM t ".
Proof. vm_compute. discriminate. Qed.

(** C3, amended: [ LIMIT maxRows] is appended to the trimmed query exactly
    when the trimmed, upper-cased query starts with SELECT and does not
    contain LIMIT; any other query is returned unchanged.  The policy is
    idempotent, leaves [SELECT * FROM t LIMIT 5] unchanged and turns
    [SELECT * FROM t] into [SELECT * FROM t LIMIT 1000]. *)
Theorem row_limit_idempotent : forall (maxRows : Z) (q : string) (ty : DatabaseType),
  addRowLimitToQuery maxRows q ty =
    (let u := toUpperCase (trim q) in
     if startsWith u "SELECT" && negb (includes u "LIMIT")
     then trim q ++ " LIMIT " ++ Z_to_dec maxRows else q) /\
  addRowLimitToQuery maxRows (addRowLimitToQuery maxRows q ty) ty =
    addRowLimitToQuery maxRows q ty /\
  addRowLimitToQuery maxRowLimit "SELECT * FROM t LIMIT 5" ty = "SELECT * FROM t LIMIT 5" /\
  addRowLimitToQuery maxRowLimit "SELECT * FROM t" ty = "SELECT * FROM t LIMIT 1000".
Proof.
  intros maxRows q ty.
  assert (Hshape : addRowLimitToQuery maxRows q ty =
    (let u := toUpperCase (trim q) in
     if startsWith u "SELECT" && negb (includes u "LIMIT")
     then trim q ++ " LIMIT " ++ Z_to_dec maxRows else q)).
  { unfold addRowLimitToQuery. cbv zeta. now destruct ty, (_ && _). }
  split; [exact Hshape|].
  split; [|destruct ty; split; vm_compute; reflexivity].
  rewrite Hshape. cbv zeta.
  destruct (startsWith (toUpperCase (trim q)) "SELECT" &&
            negb (includes (toUpperCase (trim q)) "LIMIT")) eqn:Hc.
  - unfold addRowLimitToQuery. rewrite includes_LIMIT_after_limit.
    rewrite andb_false_r. reflexivity.
  - rewrite Hshape. cbv zeta. now rewrite Hc.
Qed.

End RowLimit.

(* ------------------------------------------------------------------ *)
(** ** The PostgreSQL plan summary *)

Module PlanTraversal.
Import JsString Js Plan Vocabulary.
Local Open Scope string_scope.

Lemma pgnode_nested_ind : forall (P : pgnode -> Prop),
  (forall t r c ch, Forall P ch -> P (PgNode t r c ch)) -> forall n, P n.
Proof.
  intros P H. fix IH 1. intros [t r c ch]. apply H.
  induction ch as [|n ch IHch]; constructor; [apply IH | exact IHch].
Qed.

Lemma children_loop : forall l acc,
  Forall (fun n => forall s, traversePostgresPlan (encode n) s = Some (after_tree s n)) l ->
  (fix go (l : list jsval) (acc : PlanSummary) : option PlanSummary :=
     match l with
     | [] => Some acc
     | subPlan :: l' =>
         match traversePostgresPlan subPlan acc with
         | Some acc' => go l' acc'
         | None => None
         end
     end) (map encode l) acc =
  Some (mkSummary (cost acc) (app (potentialIssues acc) (flat_map seq_scan_issues l))
                  (app (operations acc) (flat_map preorder_types l))).
Proof.
  induction l as [|n l IH]; intros acc Hl.
  - destruct acc. simpl. now rewrite !app_nil_r.
  - inversion Hl as [|? ? Hn Hrest]; subst. simpl map. cbv beta iota.
    rewrite Hn, IH by exact Hrest. unfold after_tree. simpl.
    now rewrite !app_assoc.
Qed.

Lemma traverse_encode : forall n s,
  traversePostgresPlan (encode n) s = Some (after_tree s n).
Proof.
  induction n as [t r c ch IHch] using pgnode_nested_ind. intros s.
  assert (Hvisit : forall tl,
    visit_postgres_node
      (JObj (app [("Node Type", JStr t); ("Relation Name", JStr r); ("Total Cost", JNum c)] tl)) s =
    mkSummary (cost s)
      (app (potentialIssues s)
           (if String.eqb t "Seq Scan" then ["Full table scan on " ++ r] else []))
      (app (operations s) [JStr t])).
  { intros tl. unfold visit_postgres_node. simpl.
    destruct (String.eqb t "Seq Scan"); simpl; [reflexivity|].
    destruct s; simpl; now rewrite app_nil_r. }
  unfold after_tree. simpl seq_scan_issues. simpl preorder_types.
  destruct ch as [|n ch]; cbn [encode traversePostgresPlan]; rewrite Hvisit.
  - cbn. now rewrite !app_nil_r.
  - cbn -[map]. rewrite (children_loop (n :: ch)) by exact IHch. cbn.
    now rewrite <- !app_assoc.
Qed.

(** C4, counterexample: on the example plan the issue reads
    [Full table scan on orders], with a capital F, so the issue list is not
    [[full table scan on orders]]. *)
Lemma plan_issue_text_counterexample :
  option_map potentialIssues (summarizePlan example_plan PostgreSQL)
  <> Some ["full table scan on orders"].
Proof. vm_compute. discriminate. Qed.

(** C4, amended: for every PostgreSQL plan tree the summary lists the node
    types in pre-order (children in [Plans] order), one issue
    [Full table scan on <Relation Name>] per [Seq Scan] node in the same
    order, and the root's [Total Cost] as cost; on the example plan this
    gives operations [Seq Scan; Index Scan], issues
    [Full table scan on orders] and cost 120. *)
Theorem postgres_plan_summary : forall n : pgnode,
  summarizePlan (JObj [("Plan", encode n)]) PostgreSQL =
    Some (mkSummary (JNum (total_cost n)) (seq_scan_issues n) (preorder_types n)) /\
  summarizePlan example_plan PostgreSQL =
    Some (mkSummary (JNum 120) ["Full table scan on orders"]
                    [JStr "Seq Scan"; JStr "Index Scan"]).
Proof.
  intros n. split; [|vm_compute; reflexivity].
  assert (Hroot : member (encode n) "Total Cost" = JNum (total_cost n))
    by (destruct n; reflexivity).
  assert (Htruthy : truthy (encode n) = true) by (destruct n; reflexivity).
  unfold summarizePlan. simpl member. cbv zeta. rewrite Htruthy.
  rewrite Hroot, traverse_encode, Htruthy. reflexivity.
Qed.

End PlanTraversal.

(* ------------------------------------------------------------------ *)
(** ** Anchored name patterns *)

Module NamePatterns.
Import JsString Regex Vocabulary StringFacts.
Local Open Scope string_scope.

Lemma star_char_reaches : forall p s n i j, i <= j -> j - i <= n ->
  (forall k, i <= k < j -> exists c, String.get k s = Some c /\ p c = true) ->
  In j (star_from (ends (RChar p) s) n i).
Proof.
  intros p s n. induction n as [|n IH]; intros i j Hij Hn Hk.
  - simpl. left. lia.
  - simpl. destruct (Nat.eq_dec i j) as [-> | Hne]; [now left|]. right.
    destruct (Hk i) as (c & Hc & Hp); [lia|].
    rewrite Hc, Hp. simpl. rewrite app_nil_r.
    replace (Nat.ltb i (S i)) with true by (symmetry; apply Nat.ltb_lt; lia).
    apply IH; [lia | lia | intros k Hk'; apply Hk; lia].
Qed.

Lemma in_ends_seq : forall a b s i k m,
  In k (ends a s i) -> In m (ends b s k) -> In m (ends (RSeq a b) s i).
Proof. intros. simpl. apply in_flat_map. eauto. Qed.

Lemma matches_of_in : forall r s i m, In m (ends r s i) -> matches_at r s i = true.
Proof. intros r s i m H. unfold matches_at. now destruct (ends r s i). Qed.

Lemma forallb_get : forall p r k, forallb p (list_ascii_of_string r) = true ->
  k < String.length r -> exists d, String.get k r = Some d /\ p d = true.
Proof.
  induction r as [|c r IH]; intros k H Hk; simpl in Hk; [lia|].
  simpl in H. apply andb_prop in H as [Hc Hr].
  destruct k as [|k]; [now exists c|]. simpl. apply IH; [exact Hr | lia].
Qed.

Lemma test_alt_l : forall a b s, test a s = true -> test (RAlt a b) s = true.
Proof.
  unfold test. intros a b s H. apply existsb_exists in H as (i & Hi & Hm).
  apply existsb_exists. exists i. split; [exact Hi|].
  unfold matches_at in *. simpl. now destruct (ends a s i).
Qed.

Lemma test_alt_r : forall a b s, test b s = true -> test (RAlt a b) s = true.
Proof.
  unfold test. intros a b s H. apply existsb_exists in H as (i & Hi & Hm).
  apply existsb_exists. exists i. split; [exact Hi|].
  unfold matches_at in *. simpl. destruct (ends a s i); [exact Hm | reflexivity].
Qed.

(** [/^[lead][body]*$/] accepts every name of that shape. *)
Lemma anchored_class_test : forall lead body c r,
  lead c = true -> forallb body (list_ascii_of_string r) = true ->
  test (RSeq RBol (RSeq (RChar lead) (RSeq (RStar (RChar body)) REol))) (String c r) = true.
Proof.
  intros lead body c r Hc Hr.
  apply (test_at _ _ 0); [lia|].
  apply (matches_of_in _ _ _ (String.length (String c r))).
  apply (in_ends_seq _ _ _ _ 0); [simpl; now left|].
  apply (in_ends_seq _ _ _ _ 1); [simpl; rewrite Hc; now left|].
  apply (in_ends_seq _ _ _ _ (String.length (String c r))).
  - apply star_char_reaches; simpl; try lia.
    intros k Hk. destruct k as [|k]; [lia|]. simpl.
    apply forallb_get; [exact Hr | lia].
  - simpl. rewrite Nat.eqb_refl. now left.
Qed.

Lemma get_wrapped : forall (m : string) k, k < String.length m ->
  String.get (S k) (String "`"%char (m ++ String "`"%char EmptyString)) = String.get k m.
Proof. intros m k Hk. simpl. symmetry. now apply append_correct1. Qed.

(** [/^`[^`]+`$/] accepts every backtick-wrapped name. *)
Lemma quoted_test : forall s, backtick_wrapped s -> test QueryValidator.quoted_regex s = true.
Proof.
  intros s (m & Hs & Hm & Hnb).
  assert (Hlen : String.length s = S (String.length m + 1))
    by (subst s; simpl; now rewrite length_app_str).
  assert (Hpos : String.length m > 0) by (destruct m; [congruence | simpl; lia]).
  assert (Hin : forall k, k < String.length m -> String.get (S k) s = String.get k m)
    by (intros; subst s; now apply get_wrapped).
  assert (Hlast : String.get (S (String.length m)) s = Some "`"%char).
  { subst s. simpl. replace (String.length m) with (String.length m + 0) by lia.
    now rewrite get_app_right. }
  assert (Hfirst : String.get 0 s = Some "`"%char) by (now subst s).
  apply (test_at _ _ 0); [lia|].
  apply (matches_of_in _ _ _ (String.length s)).
  unfold QueryValidator.quoted_regex.
  apply (in_ends_seq _ _ _ _ 0); [simpl; now left|].
  apply (in_ends_seq _ _ _ _ 1); [simpl; rewrite Hfirst; now left|].
  apply (in_ends_seq _ _ _ _ (S (String.length m))).
  - unfold RPlus. apply (in_ends_seq _ _ _ _ 2).
    + simpl ends. rewrite (Hin 0) by lia.
      destruct (forallb_get _ m 0 Hnb) as (d & Hd & Hp); [lia|]. rewrite Hd, Hp. now left.
    + apply star_char_reaches; [lia | rewrite Hlen; lia|].
      intros k Hk. destruct k as [|k]; [lia|].
      rewrite Hin by lia. apply forallb_get; [exact Hnb | lia].
  - apply (in_ends_seq _ _ _ _ (S (S (String.length m)))).
    + simpl ends. rewrite Hlast. now left.
    + simpl. rewrite Hlen.
      replace (String.length m + 1) with (S (String.length m)) by lia.
      simpl. rewrite Nat.eqb_refl. now left.
Qed.

End NamePatterns.

(* ------------------------------------------------------------------ *)
(** ** Identifier and name validation *)

Module NameValidation.
Import JsString Regex Vocabulary StringFacts NamePatterns QueryValidator InputValidator.
Local Open Scope string_scope.

Ltac all_chars c :=
  destruct c as [[] [] [] [] [] [] [] []]; vm_compute; try reflexivity; try discriminate.

Lemma digit_char_facts : forall c, is_digit c = true ->
  name_lead c = false /\ ident_lead c = false /\ Ascii.eqb c "`"%char = false /\
  is_space c = false.
Proof. intros c; all_chars c; intros _; repeat split. Qed.

Lemma ident_lead_body : forall c, ident_lead c = true -> ident_body c = true.
Proof. intros c H. unfold ident_body. now rewrite H. Qed.

Lemma from_issues_valid : forall l, isValid (from_issues l) = true <-> l = [].
Proof. intros [|x l]; simpl; split; congruence. Qed.

Lemma from_issues_invalid : forall l, l <> [] -> isValid (from_issues l) = false.
Proof. intros [|x l] H; [congruence | reflexivity]. Qed.

Lemma schema_accepts : forall re m1 m2 m3 s,
  1 <= String.length s <= 64 -> test re s = true -> name_schema re m1 m2 m3 s = [].
Proof.
  intros re m1 m2 m3 s Hl Ht. unfold name_schema, check.
  replace (Nat.ltb (String.length s) 1) with false by (symmetry; apply Nat.ltb_ge; lia).
  replace (Nat.ltb 64 (String.length s)) with false by (symmetry; apply Nat.ltb_ge; lia).
  now rewrite Ht.
Qed.

Lemma schema_rejects : forall re m1 m2 m3 s,
  (String.length s < 1 \/ 64 < String.length s \/ test re s = false) ->
  name_schema re m1 m2 m3 s <> [].
Proof.
  intros re m1 m2 m3 s H. unfold name_schema, check.
  destruct H as [H | [H | H]].
  - apply Nat.ltb_lt in H. now rewrite H.
  - apply Nat.ltb_lt in H. rewrite H. now destruct (Nat.ltb _ 1).
  - rewrite H. destruct (Nat.ltb _ 1), (Nat.ltb 64 _); discriminate.
Qed.

(** No match when the first code unit is neither a lead character nor a
    backtick. *)
Lemma anchored_alt_rejects : forall lead x y c r,
  lead c = false -> Ascii.eqb c "`"%char = false ->
  test (RAlt (RSeq RBol (RSeq (RChar lead) x)) (RSeq RBol (RSeq (rchar false "`") y)))
       (String c r) = false.
Proof.
  intros lead x y c r Hl Hb. unfold test.
  destruct (existsb _ _) eqn:E; [|reflexivity].
  apply existsb_exists in E as (i & _ & Hm). unfold matches_at in Hm.
  destruct i as [|i]; simpl in Hm; [rewrite Hl, Hb in Hm|]; discriminate.
Qed.

Lemma in_rev_str : forall s acc c, In c (list_ascii_of_string (rev_str s acc)) ->
  In c (list_ascii_of_string s) \/ In c (list_ascii_of_string acc).
Proof.
  induction s as [|d s IH]; intros acc c H; [now right|].
  simpl in H. apply IH in H as [H | [<- | H]]; simpl; auto.
Qed.

(** Trimming keeps a first code unit that is not white space. *)
Lemma trim_first_char : forall c r, is_space c = false ->
  exists r', trim (String c r) = String c r'.
Proof.
  intros c r Hc. unfold trim, trimEnd. simpl trimStart. rewrite Hc. simpl rev_str.
  rewrite (RowLimit.rev_str_acc r (String c EmptyString)).
  destruct (RowLimit.trimStart_infix (rev_str r EmptyString) c EmptyString EmptyString Hc)
    as [a' Ha]. rewrite app_nil_str in Ha. rewrite Ha, RowLimit.rev_str_app.
  now exists (rev_str a' EmptyString).
Qed.

(** C6, counterexample: [validateIdentifier] refuses the hyphen the grammar
    allows, and it measures the length after removing the quotes, so a
    66-character wrapped name passes. *)
Lemma identifier_grammar_counterexample :
  grammar_name "a-b" = true /\ isValid (validateIdentifier "a-b") = false /\
  String.length ("`" ++ long_name 64 ++ "`") = 66 /\
  isValid (validateIdentifier ("`" ++ long_name 64 ++ "`")) = true.
Proof. vm_compute. repeat split. Qed.

(** C6, amended: the table and column validators reject the empty string
    and every name over 64 characters, accept every name of the grammar
    [[A-Za-z_][A-Za-z0-9_$-]*] of at most 64 characters and every
    backtick-wrapped name of at most 64 characters, and reject every name
    that starts with a digit; [validateIdentifier] rejects the empty string
    and names starting with a digit, accepts every input whose trimmed text
    follows the grammar without the hyphen and whose length without quote
    characters is at most 64, and rejects a name whose length without quote
    characters exceeds 64.  A 65-character table name is rejected and a
    64-character one of the grammar accepted. *)
Theorem identifier_validation : forall s : string,
  (s = EmptyString ->
     isValid (validateTableName s) = false /\ isValid (validateColumnName s) = false /\
     isValid (validateIdentifier s) = false) /\
  (64 < String.length s ->
     isValid (validateTableName s) = false /\ isValid (validateColumnName s) = false) /\
  (grammar_name s = true -> String.length s <= 64 ->
     isValid (validateTableName s) = true /\ isValid (validateColumnName s) = true) /\
  (backtick_wrapped s -> String.length s <= 64 ->
     isValid (validateTableName s) = true /\ isValid (validateColumnName s) = true) /\
  (forall c r, s = String c r -> is_digit c = true ->
     isValid (validateTableName s) = false /\ isValid (validateColumnName s) = false /\
     isValid (validateIdentifier s) = false) /\
  (ident_grammar_name (trim s) = true -> String.length (strip_quotes s) <= 64 ->
     isValid (validateIdentifier s) = true) /\
  (64 < String.length (strip_quotes s) -> isValid (validateIdentifier s) = false) /\
  isValid (validateTableName (long_name 65)) = false /\
  isValid (validateTableName (long_name 64)) = true.
Proof.
  intros s. unfold validateTableName, validateColumnName, tableNameSchema, columnNameSchema.
  repeat match goal with |- _ /\ _ => split end.
  - intros ->. split; [|split]; [| |reflexivity];
      apply from_issues_invalid, schema_rejects; simpl; lia.
  - intros H. split; apply from_issues_invalid, schema_rejects; lia.
  - intros Hg Hl. split; apply from_issues_valid, schema_accepts;
      (destruct s as [|c r]; [discriminate|]);
      [simpl in *; lia | | simpl in *; lia |];
      apply andb_prop in Hg as [Hc Hr]; apply test_alt_l; now apply anchored_class_test.
  - intros Hw Hl. split; apply from_issues_valid, schema_accepts;
      try (apply test_alt_r, quoted_test, Hw);
      destruct Hw as (m & -> & _); simpl in *; lia.
  - intros c r -> Hd. destruct (digit_char_facts c Hd) as (Hn & Hi & Hb & Hsp).
    split; [|split].
    + apply from_issues_invalid, schema_rejects. right; right.
      now apply anchored_alt_rejects.
    + apply from_issues_invalid, schema_rejects. right; right.
      now apply anchored_alt_rejects.
    + destruct (trim_first_char c r Hsp) as [r' Hr'].
      unfold validateIdentifier. rewrite Hr'. simpl String.eqb.
      unfold identifier_regex, quoted_regex. rewrite anchored_alt_rejects by assumption.
      reflexivity.
  - intros Hg Hl. unfold validateIdentifier.
    destruct (trim s) as [|c r] eqn:Ht; [discriminate|].
    replace (test identifier_regex (String c r)) with true.
    + replace (Nat.ltb 64 (String.length (strip_quotes s))) with false
        by (symmetry; apply Nat.ltb_ge; lia).
      reflexivity.
    + apply andb_prop in Hg as [Hc Hr].
      symmetry. apply test_alt_l. now apply anchored_class_test.
  - intros Hl. unfold validateIdentifier. apply Nat.ltb_lt in Hl. rewrite Hl.
    destruct (String.eqb (trim s) EmptyString); [reflexivity|].
    destruct (negb (test identifier_regex (trim s))); reflexivity.
  - vm_compute. reflexivity.
  - vm_compute. reflexivity.
Qed.

(** The padded name [ abc ] passes [validateIdentifier]: the grammar is
    checked on the trimmed text. *)
Lemma identifier_validation_witness :
  ident_grammar_name (trim " abc ") = true /\
  String.length (strip_quotes " abc ") <= 64 /\
  isValid (validateIdentifier " abc ") = true.
Proof.
  assert (Hg : ident_grammar_name (trim " abc ") = true) by reflexivity.
  assert (Hl : String.length (strip_quotes " abc ") <= 64) by (vm_compute; lia).
  split; [exact Hg | split; [exact Hl|]].
  destruct (identifier_validation " abc ") as (_ & _ & _ & _ & _ & H & _).
  exact (H Hg Hl).
Defined.

End NameValidation.

(* ------------------------------------------------------------------ *)
(** ** Connection URLs *)

Module ConnectionUrl.
Import JsString InputValidator StringFacts.
Local Open Scope string_scope.

Lemma strip_leading_c0_infix : forall a c w b, URL.is_c0_or_space c = false ->
  exists a', URL.strip_leading_c0 (a ++ String c w ++ b) = a' ++ String c w ++ b.
Proof.
  induction a as [|d a IH]; intros c w b Hc.
  - exists EmptyString. simpl. now rewrite Hc.
  - simpl. destruct (URL.is_c0_or_space d).
    + now apply IH.
    + now exists (String d a).
Qed.

(** Stripping C0 controls and spaces keeps a prefix that begins and ends
    with other code units. *)
Lemma strip_c0_prefix : forall w r c w',
  rev_str w EmptyString = String c w' -> URL.is_c0_or_space c = false ->
  URL.strip_leading_c0 (w ++ r) = w ++ r ->
  exists r', URL.strip_c0 (w ++ r) = w ++ r'.
Proof.
  intros w r c w' Hrev Hc Hlead. unfold URL.strip_c0. rewrite Hlead, RowLimit.rev_str_app, Hrev.
  destruct (strip_leading_c0_infix (rev_str r EmptyString) c w' EmptyString Hc) as [a' Ha].
  rewrite app_nil_str in Ha. rewrite Ha, RowLimit.rev_str_app, <- Hrev,
    RowLimit.rev_str_involutive.
  now exists (rev_str a' EmptyString).
Qed.

Lemma authority_scheme : forall sc s p, URL.authority sc s = Some p -> URL.scheme p = sc.
Proof.
  intros sc s p H. unfold URL.authority in H.
  destruct (URL.split_last _ _) as [[userinfo hostpart]|].
  - destruct hostpart; [discriminate|].
    destruct (URL.split_first _ userinfo) as [[u pw]|];
      destruct (URL.host_port _) as [[h pt]|]; try discriminate;
      injection H as <-; reflexivity.
  - destruct (URL.host_port _) as [[h pt]|]; [|discriminate]. now injection H as <-.
Qed.

Lemma prefix_split : forall w u, String.prefix w u = true -> exists r, u = w ++ r.
Proof.
  induction w as [|c w IH]; intros u H; [now exists u|].
  destruct u as [|d u]; [discriminate|]. simpl in H.
  destruct (ascii_dec c d) as [<-|]; [|discriminate].
  destruct (IH u H) as [r ->]. now exists r.
Qed.

(** A URL that begins with one of the accepted prefixes parses, when it
    parses, to that prefix's scheme. *)
Lemma parse_scheme_of_prefix : forall sc u p,
  In sc ["mysql"; "postgresql"; "postgres"] -> startsWith u (sc ++ "://") = true ->
  URL.parse u = Some p -> URL.scheme p = sc.
Proof.
  intros sc u p Hsc Hpre Hp. apply prefix_split in Hpre as [r ->].
  destruct Hsc as [<- | [<- | [<- | []]]];
    (match type of Hp with URL.parse (?w ++ r) = _ =>
       destruct (strip_c0_prefix w r "/"%char _ eq_refl eq_refl eq_refl) as [r' Hs] end;
     unfold URL.parse in Hp; rewrite Hs in Hp; simpl in Hp;
     now apply authority_scheme in Hp).
Qed.

Lemma check3_valid : forall b1 b2 b3 m1 m2 m3,
  isValid (from_issues (check b1 m1 ++ check b2 m2 ++ check b3 m3)) = true <->
  b1 = false /\ b2 = false /\ b3 = false.
Proof. intros [] [] [] m1 m2 m3; simpl; intuition congruence. Qed.

Lemma has_credentials_spec : forall u, has_credentials u = true <->
  exists p, URL.parse u = Some p /\ URL.hostname p <> EmptyString /\
            URL.username p <> EmptyString /\ URL.password p <> EmptyString.
Proof.
  intros u. unfold has_credentials. destruct (URL.parse u) as [p|].
  - rewrite !andb_true_iff, !negb_true_iff, !String.eqb_neq. split.
    + intros [[H1 H2] H3]. now exists p.
    + intros (p' & [= <-] & H1 & H2 & H3). tauto.
  - split; [discriminate | intros (p & H & _); discriminate].
Qed.

(** C7, counterexample: an upper-case scheme is a valid URL with scheme
    mysql and full credentials, yet it is rejected. *)
Lemma connection_url_case_counterexample :
  URL.parse "MYSQL://u:p@h/db" = Some (URL.mkURL "mysql" "u" "p" "h" None) /\
  isValid (validateConnectionUrl "MYSQL://u:p@h/db") = false.
Proof. vm_compute. split; reflexivity. Qed.

(** C7, amended: a URL is accepted exactly when its text literally begins
    with mysql://, postgresql:// or postgres:// and [new URL] parses it with
    a non-empty hostname, username and password; an accepted URL has one of
    the three schemes, and a rejected one carries a non-empty message. *)
Theorem connection_url_validation : forall u : string,
  (isValid (validateConnectionUrl u) = true <->
     (startsWith u "mysql://" = true \/ startsWith u "postgresql://" = true \/
      startsWith u "postgres://" = true) /\
     exists p, URL.parse u = Some p /\ URL.hostname p <> EmptyString /\
               URL.username p <> EmptyString /\ URL.password p <> EmptyString) /\
  (isValid (validateConnectionUrl u) = true ->
     exists p, URL.parse u = Some p /\ In (URL.scheme p) ["mysql"; "postgresql"; "postgres"]) /\
  (isValid (validateConnectionUrl u) = false ->
     exists e, error (validateConnectionUrl u) = Some e /\ e <> EmptyString).
Proof.
  intros u.
  assert (Hiff : isValid (validateConnectionUrl u) = true <->
     (startsWith u "mysql://" = true \/ startsWith u "postgresql://" = true \/
      startsWith u "postgres://" = true) /\
     exists p, URL.parse u = Some p /\ URL.hostname p <> EmptyString /\
               URL.username p <> EmptyString /\ URL.password p <> EmptyString).
  { unfold validateConnectionUrl, connectionUrlSchema. rewrite check3_valid.
    rewrite negb_false_iff, !orb_true_iff, negb_false_iff, has_credentials_spec.
    split.
    - tauto.
    - intros [Hpre Hc]. repeat split; try tauto.
      destruct Hc as (p & -> & _). reflexivity. }
  split; [exact Hiff|]. split.
  - intros Hv. apply Hiff in Hv as [Hpre (p & Hp & _)]. exists p. split; [exact Hp|].
    destruct Hpre as [H | [H | H]];
      [rewrite (parse_scheme_of_prefix "mysql" u p) | rewrite (parse_scheme_of_prefix "postgresql" u p)
      | rewrite (parse_scheme_of_prefix "postgres" u p)]; simpl; auto.
  - apply ErrorReporting.reports_from_issues, ErrorReporting.url_schema_nonempty.
Qed.

End ConnectionUrl.

(* ------------------------------------------------------------------ *)
(** * Further properties of the validators and the manager *)


(* ------------------------------------------------------------------ *)
(** ** Text input and sanitizing *)

Module TextSanitizing.
Import JsString Vocabulary StringFacts InputValidator InputUtilities.
Local Open Scope string_scope.

Lemma includes_char : forall s c,
  includes s (String c EmptyString) = true <-> In c (list_ascii_of_string s).
Proof.
  induction s as [|d s IH]; intros c; [simpl; split; [discriminate | tauto]|].
  cbn [includes list_ascii_of_string In]. rewrite orb_true_iff, IH.
  simpl String.prefix. destruct (ascii_dec c d) as [->|Hne].
  - split; intros _; [now left | left; now destruct s].
  - split; [intros [H|H]; [discriminate | now right] | intros [H|H]; [congruence | now right]].
Qed.

(** Text input is accepted exactly when it has at most 10000 code units and
    no NUL. *)
Theorem text_input_accepted : forall text : string,
  isValid (validateTextInput text) = true <->
  String.length text <= 10000 /\ ~ In NUL (list_ascii_of_string text).
Proof.
  intros text. unfold validateTextInput, textInputSchema, check.
  rewrite <- includes_char.
  destruct (Nat.ltb 10000 (String.length text)) eqn:El;
  destruct (includes text (String NUL EmptyString)) eqn:En; cbn [from_issues app isValid ok fail];
  rewrite ?Nat.ltb_lt, ?Nat.ltb_ge in El;
  (split; [intros H; first [discriminate | split; [lia | congruence]]
          | intros [H1 H2]; try lia; try congruence; reflexivity]).
Qed.

(** Text input that is too long and contains a NUL reports both problems,
    the length first. *)
Theorem text_input_both_messages : forall text : string,
  10000 < String.length text -> In NUL (list_ascii_of_string text) ->
  validateTextInput text =
  fail "Input too long, Input cannot contain null bytes".
Proof.
  intros text Hl Hn. unfold validateTextInput, textInputSchema, check.
  apply Nat.ltb_lt in Hl. apply includes_char in Hn. now rewrite Hl, Hn.
Qed.

Lemma trimStart_head : forall s, trimStart s = EmptyString \/
  exists c r, trimStart s = String c r /\ is_space c = false.
Proof.
  induction s as [|c s IH]; [now left|]. simpl.
  destruct (is_space c) eqn:Hc; [exact IH | right; now exists c, s].
Qed.

Lemma trimStart_idem : forall s, trimStart (trimStart s) = trimStart s.
Proof.
  induction s as [|c s IH]; [reflexivity|]. simpl.
  destruct (is_space c) eqn:Hc; [exact IH | simpl; now rewrite Hc].
Qed.

Lemma trimEnd_first_char : forall c r, is_space c = false ->
  exists r', trimEnd (String c r) = String c r'.
Proof.
  intros c r Hc. unfold trimEnd. simpl rev_str.
  rewrite (RowLimit.rev_str_acc r (String c EmptyString)).
  destruct (RowLimit.trimStart_infix (rev_str r EmptyString) c EmptyString EmptyString Hc)
    as [a' Ha]. rewrite app_nil_str in Ha. rewrite Ha, RowLimit.rev_str_app.
  now exists (rev_str a' EmptyString).
Qed.

Lemma trimEnd_idem : forall s, trimEnd (trimEnd s) = trimEnd s.
Proof.
  intros s. unfold trimEnd. now rewrite RowLimit.rev_str_involutive, trimStart_idem.
Qed.

Lemma trim_idem : forall s, trim (trim s) = trim s.
Proof.
  intros s. unfold trim.
  destruct (trimStart_head s) as [H | (c & r & H & Hc)]; rewrite H; [reflexivity|].
  destruct (trimEnd_first_char c r Hc) as [r' E]. rewrite E. simpl trimStart.
  rewrite Hc, <- E. apply trimEnd_idem.
Qed.

Lemma in_trimStart : forall s c, In c (list_ascii_of_string (trimStart s)) ->
  In c (list_ascii_of_string s).
Proof.
  induction s as [|d s IH]; intros c H; [exact H|]. simpl in H.
  destruct (is_space d); [right; now apply IH | exact H].
Qed.

Lemma in_trim : forall s c, In c (list_ascii_of_string (trim s)) ->
  In c (list_ascii_of_string s).
Proof.
  intros s c H. unfold trim, trimEnd in H.
  apply NameValidation.in_rev_str in H as [H | []].
  apply in_trimStart in H. apply NameValidation.in_rev_str in H as [H | []].
  now apply in_trimStart.
Qed.

Lemma in_remove_chars : forall p s c, In c (list_ascii_of_string (remove_chars p s)) ->
  In c (list_ascii_of_string s) /\ p c = false.
Proof.
  induction s as [|d s IH]; intros c H; [destruct H|]. simpl in H.
  destruct (p d) eqn:Hd.
  - apply IH in H as [H1 H2]. split; [now right | exact H2].
  - destruct H as [<- | H]; [split; [now left | exact Hd]|].
    apply IH in H as [H1 H2]. split; [now right | exact H2].
Qed.

Lemma remove_chars_none : forall p s,
  (forall c, In c (list_ascii_of_string s) -> p c = false) -> remove_chars p s = s.
Proof.
  induction s as [|d s IH]; intros H; [reflexivity|]. simpl.
  rewrite H by now left. f_equal. apply IH. intros c Hc. apply H. now right.
Qed.

Lemma sanitized_clean : forall input : string,
  (forall c, In c (list_ascii_of_string (sanitizeString input)) -> is_control c = false) /\
  trim (sanitizeString input) = sanitizeString input.
Proof.
  intros input. unfold sanitizeString.
  destruct (String.eqb input EmptyString); [split; [intros c [] | reflexivity]|].
  split; [|apply trim_idem].
  intros c H. apply in_trim, in_remove_chars in H as [_ H]. exact H.
Qed.

(** The output of [sanitizeString] holds no control character of the
    removed class (NUL included) and no white space at either end. *)
Theorem sanitize_output_clean : forall input : string,
  (forall c, In c (list_ascii_of_string (sanitizeString input)) -> is_control c = false) /\
  trim (sanitizeString input) = sanitizeString input.
Proof. exact sanitized_clean. Qed.

(** Sanitizing twice gives the same text as sanitizing once. *)
Theorem sanitize_idempotent : forall input : string,
  sanitizeString (sanitizeString input) = sanitizeString input.
Proof.
  intros input. destruct (sanitized_clean input) as [Hc Ht].
  unfold sanitizeString at 1. destruct (String.eqb _ EmptyString) eqn:E.
  - apply String.eqb_eq in E. now rewrite E.
  - rewrite (remove_chars_none (fun c => Ascii.eqb c NUL)).
    + rewrite remove_chars_none by exact Hc. exact Ht.
    + intros c Hin. apply Hc in Hin. destruct (Ascii.eqb c NUL) eqn:Hn; [|reflexivity].
      apply Ascii.eqb_eq in Hn. subst c. discriminate.
Qed.

(** A text without control characters of the removed class and without
    white space at its ends is kept as it is (tabs, newlines and carriage
    returns inside it included). *)
Theorem sanitize_keeps_clean_text : forall input : string,
  (forall c, In c (list_ascii_of_string input) -> is_control c = false) ->
  trim input = input -> sanitizeString input = input.
Proof.
  intros input Hc Ht. unfold sanitizeString.
  destruct (String.eqb input EmptyString) eqn:E; [symmetry; now apply String.eqb_eq|].
  rewrite (remove_chars_none (fun c => Ascii.eqb c NUL)).
  - now rewrite remove_chars_none.
  - intros c Hin. apply Hc in Hin. destruct (Ascii.eqb c NUL) eqn:Hn; [|reflexivity].
    apply Ascii.eqb_eq in Hn. subst c. discriminate.
Qed.

Lemma sanitize_keeps_clean_text_witness :
  let t := String "a" (String "009" (String "b" EmptyString)) in
  (forall c, In c (list_ascii_of_string t) -> is_control c = false) /\ trim t = t /\
  sanitizeString t = t.
Proof.
  intros t.
  assert (Hc : forall c, In c (list_ascii_of_string t) -> is_control c = false)
    by (intros c [<- | [<- | [<- | []]]]; reflexivity).
  assert (Ht : trim t = t) by reflexivity.
  split; [exact Hc | split; [exact Ht | exact (sanitize_keeps_clean_text t Hc Ht)]].
Defined.

Lemma text_input_both_messages_witness :
  let t := long_name 10000 ++ String NUL EmptyString in
  10000 < String.length t /\ In NUL (list_ascii_of_string t) /\
  validateTextInput t = fail "Input too long, Input cannot contain null bytes".
Proof.
  intros t.
  assert (Hl : 10000 < String.length t) by (apply Nat.ltb_lt; vm_compute; reflexivity).
  assert (Hn : In NUL (list_ascii_of_string t)) by (apply includes_char; vm_compute; reflexivity).
  split; [exact Hl | split; [exact Hn | exact (text_input_both_messages t Hl Hn)]].
Defined.

End TextSanitizing.

(* ------------------------------------------------------------------ *)
(** ** Identifier escaping *)

Module Escaping.
Import JsString Vocabulary StringFacts InputUtilities.
Local Open Scope string_scope.

Lemma substring_last : forall a c,
  substring (String.length a) 1 (a ++ String c EmptyString) = String c EmptyString.
Proof. induction a as [|d a IH]; intros c; [reflexivity | exact (IH c)]. Qed.

Lemma escaped_wrapped : forall d,
  startsWith ("`" ++ d ++ "`") "`" && endsWith ("`" ++ d ++ "`") "`" = true.
Proof.
  intros d. unfold endsWith, startsWith.
  change ("`" ++ d ++ "`") with (String "`" d ++ String "`" EmptyString).
  rewrite length_app_str.
  replace (String.length (String "`" d) + String.length (String "`" EmptyString)
           - String.length (String "`" EmptyString)) with (String.length (String "`" d)) by lia.
  rewrite substring_last. destruct d; reflexivity.
Qed.

(** Escaping an escaped identifier changes nothing. *)
Theorem escape_identifier_idempotent : forall identifier : string,
  escapeIdentifier (escapeIdentifier identifier) = escapeIdentifier identifier.
Proof.
  intros identifier. unfold escapeIdentifier at 2 3.
  destruct (String.eqb identifier EmptyString) eqn:E;
    [apply String.eqb_eq in E; now subst identifier|].
  destruct (startsWith identifier "`" && endsWith identifier "`") eqn:W.
  - unfold escapeIdentifier. now rewrite E, W.
  - unfold escapeIdentifier at 1. rewrite escaped_wrapped. reflexivity.
Qed.

Lemma undouble_double : forall s, undouble_backticks (double_backticks s) = s.
Proof.
  induction s as [|c s IH]; [reflexivity|]. simpl.
  destruct (Ascii.eqb c "`") eqn:Hc.
  - apply Ascii.eqb_eq in Hc. subst c. simpl. now rewrite IH.
  - simpl. rewrite Hc. now rewrite IH.
Qed.

(** An identifier that is not already wrapped in backticks comes back
    wrapped, and reading each doubled backtick of the inner text as one
    gives the identifier back. *)
Theorem escape_identifier_round_trip : forall identifier : string,
  identifier <> EmptyString ->
  startsWith identifier "`" && endsWith identifier "`" = false ->
  exists inner, escapeIdentifier identifier = "`" ++ inner ++ "`" /\
                undouble_backticks inner = identifier.
Proof.
  intros identifier Hne Hw. unfold escapeIdentifier.
  destruct (String.eqb identifier EmptyString) eqn:E;
    [apply String.eqb_eq in E; contradiction|].
  rewrite Hw. exists (double_backticks identifier). split; [reflexivity|].
  apply undouble_double.
Qed.

Lemma escape_identifier_round_trip_witness :
  exists inner, escapeIdentifier "a`b" = "`" ++ inner ++ "`" /\ undouble_backticks inner = "a`b".
Proof. apply escape_identifier_round_trip; [discriminate | reflexivity]. Defined.

End Escaping.

(* ------------------------------------------------------------------ *)
(** ** Array validation *)

Module ArrayValidation.
Import JsString Js Vocabulary StringFacts InputUtilities.
Local Open Scope string_scope.

Section Items.
Variable T : Type.
Variable itemValidator : jsval -> ItemResult T.

Let good := item_accepted itemValidator.

Lemma items_all_good : forall vs ds i acc errs, Forall2 good vs ds ->
  validate_items itemValidator vs i acc errs = (app acc ds, errs).
Proof.
  induction vs as [|v vs IH]; intros ds i acc errs H; inversion H as [|v' d vs' ds' [Hv Hd] Hr]; subst.
  - now rewrite app_nil_r.
  - simpl. rewrite Hv, Hd. erewrite IH by exact Hr. now rewrite <- app_assoc.
Qed.

Lemma items_errors_grow : forall vs i acc errs,
  exists more, snd (validate_items itemValidator vs i acc errs) = app errs more.
Proof.
  induction vs as [|v vs IH]; intros i acc errs; [exists []; simpl; now rewrite app_nil_r|].
  simpl. destruct (item_valid (itemValidator v)), (item_data (itemValidator v));
    match goal with
    | |- exists more, snd (validate_items _ _ _ ?a ?e) = _ =>
        destruct (IH (S i) a e) as [more Hm]; rewrite Hm; try rewrite <- app_assoc; eexists; reflexivity
    end.
Qed.

Lemma items_bad_reported : forall vs i acc errs k v,
  nth_error vs k = Some v ->
  (item_valid (itemValidator v) = false \/ item_data (itemValidator v) = None) ->
  In ("Item " ++ Z_to_dec (Z.of_nat (i + k)) ++ ": " ++ error_or_default (item_error (itemValidator v)))
     (snd (validate_items itemValidator vs i acc errs)).
Proof.
  induction vs as [|w vs IH]; intros i acc errs k v Hk Hbad; [destruct k; discriminate|].
  destruct k as [|k].
  - injection Hk as <-. rewrite Nat.add_0_r. cbn [validate_items].
    assert (Hcase : forall more, In ("Item " ++ Z_to_dec (Z.of_nat i) ++ ": " ++
               error_or_default (item_error (itemValidator w))) (app (app errs [
               "Item " ++ Z_to_dec (Z.of_nat i) ++ ": " ++ error_or_default (item_error (itemValidator w))]) more))
      by (intros more; apply in_or_app; left; apply in_or_app; right; now left).
    destruct Hbad as [Hb | Hb]; rewrite Hb;
      [| destruct (item_valid (itemValidator w))];
      (destruct (items_errors_grow vs (S i) acc
         (app errs ["Item " ++ Z_to_dec (Z.of_nat i) ++ ": " ++ error_or_default (item_error (itemValidator w))]))
         as [more Hm]; rewrite Hm; apply Hcase).
  - simpl in Hk. replace (i + S k) with (S i + k) by lia. cbn [validate_items].
    destruct (item_valid (itemValidator w)), (item_data (itemValidator w)); apply IH; assumption.
Qed.

Lemma items_some_good : forall vs i acc errs,
  snd (validate_items itemValidator vs i acc errs) = errs -> exists ds, Forall2 good vs ds.
Proof.
  induction vs as [|v vs IH]; intros i acc errs H; [now exists []|].
  cbn [validate_items] in H.
  destruct (item_valid (itemValidator v)) eqn:Hv, (item_data (itemValidator v)) as [d|] eqn:Hd;
    try (match type of H with
         | snd (validate_items _ _ _ ?a ?e) = _ =>
             destruct (items_errors_grow vs (S i) a e) as [more Hm];
             rewrite Hm, <- app_assoc in H;
             apply (f_equal (@length string)) in H; rewrite length_app in H; simpl in H; lia
         end).
  destruct (IH _ _ _ H) as [ds Hds]. exists (d :: ds). constructor; [split; assumption | exact Hds].
Qed.

End Items.


Lemma join_contains : forall sep l x, In x l -> exists a b, join sep l = a ++ x ++ b.
Proof.
  intros sep l. induction l as [|y l IH]; intros x H; [destruct H|].
  destruct H as [<- | H].
  - destruct l as [|z l]; [exists EmptyString, EmptyString; simpl; now rewrite app_nil_str|].
    exists EmptyString, (sep ++ join sep (z :: l)). reflexivity.
  - destruct (IH x H) as (a & b & E). destruct l as [|z l]; [destruct H|].
    exists (y ++ sep ++ a), b. change (join sep (y :: z :: l)) with (y ++ sep ++ join sep (z :: l)).
    rewrite E, !app_assoc_str. reflexivity.
Qed.

(** An array is accepted exactly when every item is accepted with some
    data; the data of the result lists the items' data in order. *)
Theorem array_validation_accepts : forall (T : Type) (itemValidator : jsval -> ItemResult T)
    (vs : list jsval) (ds : list T),
  validateArray itemValidator (JArr vs) = mkArray true None (Some ds) <->
  Forall2 (item_accepted itemValidator) vs ds.
Proof.
  intros T iv vs ds. unfold validateArray.
  destruct (validate_items iv vs 0 [] []) as [items errs] eqn:E. split.
  - intros H. destruct errs; [|discriminate]. injection H as ->.
    destruct (items_some_good T iv vs 0 [] []) as [ds' Hds']; [now rewrite E|].
    rewrite (items_all_good T iv vs ds' 0 [] [] Hds') in E. injection E as <-. exact Hds'.
  - intros H. rewrite (items_all_good T iv vs ds 0 [] [] H) in E. injection E as <- <-. reflexivity.
Qed.

(** Every item the validator rejects, or accepts without data, makes the
    array invalid, and the error names it by its index with the item's
    message (or [Validation failed]). *)
Theorem array_validation_reports_items : forall (T : Type) (itemValidator : jsval -> ItemResult T)
    (vs : list jsval) (k : nat) (v : jsval),
  nth_error vs k = Some v ->
  (item_valid (itemValidator v) = false \/ item_data (itemValidator v) = None) ->
  array_valid (validateArray itemValidator (JArr vs)) = false /\
  exists e, array_error (validateArray itemValidator (JArr vs)) = Some e /\
    includes e ("Item " ++ Z_to_dec (Z.of_nat k) ++ ": " ++
                error_or_default (item_error (itemValidator v))) = true.
Proof.
  intros T iv vs k v Hk Hbad.
  pose proof (items_bad_reported T iv vs 0 [] [] k v Hk Hbad) as Hin. simpl plus in Hin.
  unfold validateArray. destruct (validate_items iv vs 0 [] []) as [items errs] eqn:E.
  simpl snd in Hin. destruct errs as [|e0 errs]; [destruct Hin|].
  split; [reflexivity|]. eexists; split; [reflexivity|].
  destruct (join_contains ", " _ _ Hin) as (a & b & ->). apply RowLimit.includes_infix.
Qed.

Lemma array_validation_reports_items_witness :
  let iv := fun v => match v with
                     | JNum n => mkItem true None (Some n)
                     | _ => mkItem false (Some "not a number") None
                     end in
  array_valid (validateArray iv (JArr [JNum 1; JStr "x"])) = false /\
  exists e, array_error (validateArray iv (JArr [JNum 1; JStr "x"])) = Some e /\
    includes e ("Item " ++ Z_to_dec (Z.of_nat 1) ++ ": " ++
                error_or_default (item_error (iv (JStr "x")))) = true.
Proof.
  intros iv. apply (array_validation_reports_items Z iv [JNum 1; JStr "x"] 1 (JStr "x"));
    [reflexivity | left; reflexivity].
Defined.

End ArrayValidation.


(* ------------------------------------------------------------------ *)
(** ** Query validation *)


Module QueryChecks.
Import JsString Vocabulary StringFacts QueryValidator InputUtilities.
Local Open Scope string_scope.

Lemma valid_query_checks : forall q t, isValid (validateQuery q t) = true ->
  let n := normalizeQuery q in
  isValid (checkForbiddenKeywords n) = true /\ isValid (checkForbiddenFunctions n) = true /\
  isValid (checkAllowedStart n) = true /\ isValid (checkSqlInjectionPatterns n t) = true /\
  isValid (checkSuspiciousPatterns n) = true /\
  validateQuery q t = mkResult true None (Some (getWarnings n)).
Proof.
  intros q t H n. unfold validateQuery in *. cbv zeta in *. fold n in H |- *.
  destruct (String.eqb (trim q) EmptyString); [discriminate|].
  destruct (isValid (checkForbiddenKeywords n)) eqn:E1; [|simpl in H; congruence].
  destruct (isValid (checkForbiddenFunctions n)) eqn:E2; [|simpl in H; congruence].
  destruct (isValid (checkAllowedStart n)) eqn:E3; [|simpl in H; congruence].
  destruct (isValid (checkSqlInjectionPatterns n t)) eqn:E4; [|simpl in H; congruence].
  destruct (isValid (checkSuspiciousPatterns n)) eqn:E5; [|simpl in H; congruence].
  repeat (split; [reflexivity|]). reflexivity.
Qed.

Lemma allowed_start_in : forall n, isValid (checkAllowedStart n) = true ->
  In (first_word n) ALLOWED_KEYWORDS.
Proof.
  intros n H. unfold checkAllowedStart in H. cbv zeta in H.
  destruct (existsb _ _) eqn:E; [|discriminate].
  apply existsb_exists in E as (k & Hk & Hb). apply String.eqb_eq in Hb. now subst k.
Qed.

(** A query whose normalized text is longer than 10000 code units, or has
    more than 50 opening parentheses, is rejected. *)
Theorem query_size_limits : forall (q : string) (t : DatabaseType),
  10000 < String.length (normalizeQuery q) \/ 50 < count_char "(" (normalizeQuery q) ->
  isValid (validateQuery q t) = false.
Proof.
  intros q t Hbig. destruct (isValid (validateQuery q t)) eqn:V; [|reflexivity].
  apply valid_query_checks in V as (_ & _ & _ & _ & V & _).
  unfold checkSuspiciousPatterns in V.
  destruct Hbig as [Hb | Hb]; apply Nat.ltb_lt in Hb; rewrite Hb in V;
    [discriminate | destruct (Nat.ltb 10000 _); discriminate].
Qed.

(** A query is rejected when the first word of its normalized text is not
    an allowed keyword, or when that text contains a forbidden function
    name. *)
Theorem query_start_and_functions : forall (q : string) (t : DatabaseType),
  ~ In (first_word (normalizeQuery q)) ALLOWED_KEYWORDS \/
  (exists f, In f FORBIDDEN_FUNCTIONS /\ includes (normalizeQuery q) f = true) ->
  isValid (validateQuery q t) = false.
Proof.
  intros q t Hbad. destruct (isValid (validateQuery q t)) eqn:V; [|reflexivity].
  apply valid_query_checks in V as (_ & Hf & Ha & _).
  destruct Hbad as [Hb | (f & Hin & Hinc)]; [now apply allowed_start_in in Ha|].
  unfold checkForbiddenFunctions in Hf.
  destruct (find (includes (normalizeQuery q)) FORBIDDEN_FUNCTIONS) eqn:E; [discriminate|].
  rewrite (find_none _ _ E f Hin) in Hinc. discriminate.
Qed.

(** [isSimpleReadQuery] only accepts queries that pass the start check of
    [validateQuery]; a query that [validateQuery] accepts is a simple read
    unless it starts with ANALYZE, CHECK, CHECKSUM or OPTIMIZE. *)
Theorem simple_read_queries : forall (q : string) (t : DatabaseType),
  (isSimpleReadQuery q = true -> isValid (checkAllowedStart (normalizeQuery q)) = true) /\
  (isValid (validateQuery q t) = true ->
   isSimpleReadQuery q = true \/
   In (first_word (normalizeQuery q)) ["ANALYZE"; "CHECK"; "CHECKSUM"; "OPTIMIZE"]).
Proof.
  intros q t. split.
  - unfold isSimpleReadQuery, checkAllowedStart. cbv zeta. intros H.
    apply existsb_exists in H as (k & Hk & Hb). apply String.eqb_eq in Hb. rewrite Hb.
    repeat (destruct Hk as [<- | Hk]; [reflexivity|]). destruct Hk.
  - intros V. apply valid_query_checks in V as (_ & _ & Ha & _).
    apply allowed_start_in in Ha. unfold isSimpleReadQuery. cbv zeta.
    repeat (destruct Ha as [E | Ha];
      [rewrite <- E; first [left; reflexivity | right; simpl; tauto]|]). destruct Ha.
Qed.

Lemma trimStart_blank : forall s, forallb is_space (list_ascii_of_string s) = true ->
  trimStart s = EmptyString.
Proof.
  induction s as [|c s IH]; intros H; [reflexivity|].
  simpl in H |- *. apply andb_true_iff in H as [Hc Hs]. rewrite Hc. now apply IH.
Qed.

(** A query made only of white space (or empty) is rejected as empty. *)
Theorem blank_query_rejected : forall (q : string) (t : DatabaseType),
  forallb is_space (list_ascii_of_string q) = true ->
  validateQuery q t = fail "Query cannot be empty".
Proof.
  intros q t H. unfold validateQuery, trim. rewrite (trimStart_blank q H). reflexivity.
Qed.

(** An accepted query carries no error and the warnings of its normalized
    text; the SELECT * warning is among them exactly when that text
    contains SELECT *. *)
Theorem valid_query_warnings : forall (q : string) (t : DatabaseType),
  isValid (validateQuery q t) = true ->
  error (validateQuery q t) = None /\
  exists w, warnings (validateQuery q t) = Some w /\
    (In "Using SELECT * may return large result sets. Consider specifying specific columns." w <->
     includes (normalizeQuery q) "SELECT *" = true).
Proof.
  intros q t V. apply valid_query_checks in V as (_ & _ & _ & _ & _ & E). rewrite E.
  split; [reflexivity|]. eexists; split; [reflexivity|]. unfold getWarnings.
  destruct (includes (normalizeQuery q) "SELECT *").
  - split; [reflexivity | intros _; now left].
  - split; [|discriminate]. intros H. simpl in H.
    repeat match type of H with
    | In _ (app (if ?b then _ else _) _) => destruct b; simpl in H
    | In _ (if ?b then _ else _) => destruct b; simpl in H
    | _ \/ _ => destruct H as [H|H]; [discriminate|]
    end; contradiction.
Qed.


Lemma query_size_limits_witness :
  50 < count_char "(" (normalizeQuery "SELECT (((((((((((((((((((((((((((((((((((((((((((((((((((") /\
  isValid (validateQuery "SELECT (((((((((((((((((((((((((((((((((((((((((((((((((((" MySQL) = false.
Proof.
  assert (H : 50 < count_char "(" (normalizeQuery "SELECT ((((((((((((((((((((((((((((((((((((((((((((((((((("))
    by (apply Nat.ltb_lt; vm_compute; reflexivity).
  split; [exact H|].
  apply (query_size_limits "SELECT (((((((((((((((((((((((((((((((((((((((((((((((((((" MySQL). right. exact H.
Defined.

Lemma query_start_and_functions_witness :
  includes (normalizeQuery "SELECT LOAD_FILE('x')") "LOAD_FILE" = true /\
  isValid (validateQuery "SELECT LOAD_FILE('x')" MySQL) = false.
Proof.
  split; [vm_compute; reflexivity|].
  apply (query_start_and_functions "SELECT LOAD_FILE('x')" MySQL).
  right. exists "LOAD_FILE". split; [now left | vm_compute; reflexivity].
Defined.

Lemma simple_read_queries_witness :
  isValid (checkAllowedStart (normalizeQuery "show tables")) = true /\
  (isSimpleReadQuery "show tables" = true \/
   In (first_word (normalizeQuery "show tables")) ["ANALYZE"; "CHECK"; "CHECKSUM"; "OPTIMIZE"]).
Proof.
  destruct (simple_read_queries "show tables" MySQL) as [H1 H2].
  split; [apply H1 | apply H2]; vm_compute; reflexivity.
Defined.

Lemma blank_query_rejected_witness :
  forallb is_space (list_ascii_of_string " ") = true /\
  validateQuery " " PostgreSQL = fail "Query cannot be empty".
Proof.
  split; [reflexivity | apply (blank_query_rejected " " PostgreSQL); reflexivity].
Defined.

Lemma valid_query_warnings_witness :
  isValid (validateQuery "SELECT * FROM t" MySQL) = true /\
  error (validateQuery "SELECT * FROM t" MySQL) = None.
Proof.
  split; [vm_compute; reflexivity|].
  apply (valid_query_warnings "SELECT * FROM t" MySQL). vm_compute. reflexivity.
Defined.

End QueryChecks.


(* ------------------------------------------------------------------ *)
(** ** Connection sessions *)

Module Sessions.
Import JsString Js Plan Manager Vocabulary.
Local Open Scope string_scope.

(** A body that emits one event and nothing else, run inside
    [with_connection]. *)
Lemma with_connection_one : forall connect databases dbName config A (body : M A) ev tr,
  get databases dbName = Some config ->
  (forall tr0, snd (body tr0) = app tr0 [ev]) ->
  with_connection connect databases dbName body tr =
  match connect (url config) with
  | Some msg => (inl (DatabaseError msg), app tr [Connect (url config)])
  | None => (fst (body (app tr [Connect (url config)])),
             app tr [Connect (url config); ev; Close])
  end.
Proof.
  intros connect databases dbName config A body ev tr Hget Hbody.
  unfold with_connection, getConnection, bind, try_finally, closeConnection, emit, throw, ret.
  rewrite Hget. destruct (connect (url config)); [reflexivity|].
  specialize (Hbody (app tr [Connect (url config)])).
  destruct (body (app tr [Connect (url config)])) as [res tr'].
  simpl in Hbody |- *. subst tr'. now rewrite <- !app_assoc.
Qed.

Lemma execute_one : forall exec_result ty sql params tr,
  snd (execute exec_result ty sql params tr) = app tr [Execute ty sql params].
Proof.
  intros. unfold execute, bind, emit, throw, ret.
  now destruct (exec_result ty sql params).
Qed.

Lemma execute_then_quiet : forall exec_result ty sql params A (k : list row -> M A) tr,
  (forall x tr0, snd (k x tr0) = tr0) ->
  snd (bind (execute exec_result ty sql params) k tr) = app tr [Execute ty sql params].
Proof.
  intros exec_result ty sql params A k tr Hk. unfold bind at 1.
  pose proof (execute_one exec_result ty sql params tr) as He.
  destruct (execute exec_result ty sql params tr) as [[e|rows] tr']; simpl in He |- *;
    [exact He | now rewrite Hk].
Qed.

Lemma session_one : forall connect databases dbName config A (body : M A) ty sql params tr,
  get databases dbName = Some config -> ty = type config ->
  (forall tr0, snd (body tr0) = app tr0 [Execute ty sql params]) ->
  session connect databases dbName tr (with_connection connect databases dbName body tr).
Proof.
  intros connect databases dbName config A body ty sql params tr Hget -> Hbody.
  rewrite (with_connection_one connect databases dbName config A body _ tr Hget Hbody).
  right. exists config. split; [exact Hget|].
  destruct (connect (url config)) as [msg|]; [left; now exists msg|].
  right. split; [reflexivity|]. now exists sql, params.
Qed.

Lemma first_value_quiet : forall rows tr, snd (first_value rows tr) = tr.
Proof.
  intros [|[|[k v] r] rows] tr; reflexivity.
Qed.

(** Every run of [executeQuery], [analyzeQuery], [getForeignKeys] and
    [queryInformationSchema] either leaves the connection layer untouched,
    fails while connecting (with the connection layer's message), or opens
    one connection to the registered URL, runs exactly one statement on it
    and closes it, whatever the statement's outcome. *)
Theorem operations_close_connections :
  forall connect exec_result json_parse databases dbName query params tableName table
         filters limit tr,
  session connect databases dbName tr
    (executeQuery connect exec_result databases dbName query params tr) /\
  session connect databases dbName tr
    (analyzeQuery connect exec_result json_parse databases dbName query tr) /\
  session connect databases dbName tr
    (getForeignKeys connect exec_result databases dbName tableName tr) /\
  session connect databases dbName tr
    (queryInformationSchema connect exec_result databases dbName table filters limit tr).
Proof.
  intros connect exec_result json_parse databases dbName query params tableName table
    filters limit tr.
  repeat split.
  - unfold executeQuery, not_found, throw.
    destruct (get databases dbName) as [config|] eqn:Hget; [|now left].
    destruct (negb _); [now left|].
    eapply session_one; [exact Hget | reflexivity | apply execute_one].
  - unfold analyzeQuery, not_found, throw.
    destruct (get databases dbName) as [config|] eqn:Hget; [|now left].
    destruct (negb _); [now left|].
    eapply session_one; [exact Hget | reflexivity |].
    intros tr0. apply execute_then_quiet. intros rows tr1. unfold bind.
    pose proof (first_value_quiet rows tr1) as Hf.
    destruct (first_value rows tr1) as [[e|v] tr2]; simpl in Hf |- *; [exact Hf|].
    subst tr2. destruct (summarizePlan _ _); reflexivity.
  - unfold getForeignKeys, getForeignKeysPostgres, not_found, throw.
    destruct (get databases dbName) as [config|] eqn:Hget; [|now left].
    destruct (type config) eqn:Hty; destruct (present tableName);
      (eapply session_one; [exact Hget | symmetry; exact Hty |]);
      intros tr0; apply execute_then_quiet; reflexivity.
  - unfold queryInformationSchema, not_found, throw.
    destruct (get databases dbName) as [config|] eqn:Hget; [|now left].
    destruct (negb _); [now left|].
    destruct (information_schema_sql _ _ _ _) as [e|[sql ps]]; [now left|].
    eapply session_one; [exact Hget | reflexivity | apply execute_one].
Qed.


(** An operation on a name that is not registered fails with
    [Database not found: <name>] before touching the connection layer. *)
Theorem unknown_database_rejected :
  forall connect exec_result json_parse databases dbName query params tableName table
         filters limit tr,
  get databases dbName = None ->
  let err := DatabaseError ("Database not found: " ++ dbName) in
  executeQuery connect exec_result databases dbName query params tr = (inl err, tr) /\
  analyzeQuery connect exec_result json_parse databases dbName query tr = (inl err, tr) /\
  getForeignKeys connect exec_result databases dbName tableName tr = (inl err, tr) /\
  queryInformationSchema connect exec_result databases dbName table filters limit tr = (inl err, tr).
Proof.
  intros connect exec_result json_parse databases dbName query params tableName table
    filters limit tr Hget err.
  unfold executeQuery, analyzeQuery, getForeignKeys, queryInformationSchema.
  rewrite Hget. repeat split.
Qed.

Lemma unknown_database_rejected_witness :
  let err := DatabaseError ("Database not found: " ++ "other") in
  get [("main", main_db)] "other" = None /\
  executeQuery (fun _ => None) (fun _ _ _ => inr []) [("main", main_db)] "other" "SELECT 1" [] []
    = (inl err, []).
Proof.
  intros err.
  assert (H : get [("main", main_db)] "other" = None) by reflexivity.
  split; [exact H|].
  exact (proj1 (unknown_database_rejected (fun _ => None) (fun _ _ _ => inr []) (fun _ => None)
    [("main", main_db)] "other" "SELECT 1" [] None "TABLES" None None [] H)).
Defined.

(** On a registered database, once the query passes validation and the
    connection opens, [executeQuery] runs exactly the row-limited query with
    the caller's parameters, closes the connection, and returns the rows or
    throws [DatabaseError] with [Query execution failed: ] before the
    driver's message. *)
Theorem execute_query_runs_limited_query :
  forall connect exec_result databases dbName config query params tr,
  get databases dbName = Some config ->
  isValid (QueryValidator.validateQuery query MySQL) = true ->
  connect (url config) = None ->
  let sql := addRowLimitToQuery maxRowLimit query (type config) in
  executeQuery connect exec_result databases dbName query params tr =
  (match exec_result (type config) sql params with
   | inl msg => inl (DatabaseError ("Query execution failed: " ++ msg))
   | inr rows => inr rows
   end,
   app tr [Connect (url config); Execute (type config) sql params; Close]).
Proof.
  intros connect exec_result databases dbName config query params tr Hget Hv Hc sql.
  unfold executeQuery. rewrite Hget, Hv. cbn [negb]. cbv zeta.
  rewrite (with_connection_one connect databases dbName config _ _ _ tr Hget
             (execute_one exec_result (type config) _ params)), Hc.
  f_equal. unfold execute, bind, emit, throw, ret. simpl.
  now destruct (exec_result _ _ params).
Qed.

Lemma execute_query_runs_limited_query_witness :
  get [("main", main_db)] "main" = Some main_db /\
  isValid (QueryValidator.validateQuery "SELECT id FROM t" MySQL) = true /\
  executeQuery (fun _ => None) (fun _ _ _ => inr []) [("main", main_db)] "main" "SELECT id FROM t" [] []
  = (inr [], [Connect (url main_db);
              Execute MySQL (addRowLimitToQuery maxRowLimit "SELECT id FROM t" MySQL) []; Close]).
Proof.
  assert (Hg : get [("main", main_db)] "main" = Some main_db) by reflexivity.
  assert (Hv : isValid (QueryValidator.validateQuery "SELECT id FROM t" MySQL) = true)
    by (vm_compute; reflexivity).
  split; [exact Hg | split; [exact Hv|]].
  exact (execute_query_runs_limited_query (fun _ => None) (fun _ _ _ => inr []) [("main", main_db)]
    "main" main_db "SELECT id FROM t" [] [] Hg Hv eq_refl).
Defined.

End Sessions.

(* ------------------------------------------------------------------ *)
(** ** EXPLAIN and the catalog query *)

Module Catalog.
Import JsString Js Plan Manager Vocabulary Sessions.
Local Open Scope string_scope.

(** [analyzeQuery] only ever sends the EXPLAIN statement of the dialect
    wrapped around a query that passed validation, with no parameters. *)
Theorem analyze_sends_only_explain :
  forall connect exec_result json_parse databases dbName query tr res tr' ty sql params,
  analyzeQuery connect exec_result json_parse databases dbName query tr = (res, tr') ->
  In (Execute ty sql params) tr' -> ~ In (Execute ty sql params) tr ->
  isValid (QueryValidator.validateQuery query MySQL) = true /\ params = [] /\
  sql = (match ty with
         | PostgreSQL => "EXPLAIN (FORMAT JSON, VERBOSE, ANALYZE FALSE) "
         | MySQL => "EXPLAIN FORMAT=JSON "
         end) ++ query.
Proof.
  intros connect exec_result json_parse databases dbName query tr res tr' ty sql params
    Hrun Hin Hnew.
  unfold analyzeQuery, not_found, throw in Hrun.
  destruct (get databases dbName) as [config|] eqn:Hget; [|injection Hrun as _ <-; contradiction].
  destruct (isValid (QueryValidator.validateQuery query MySQL)) eqn:Hv;
    [|injection Hrun as _ <-; contradiction].
  cbn [negb] in Hrun. cbv zeta in Hrun.
  rewrite (with_connection_one connect databases dbName config _ _
    (Execute (type config)
       (match type config with
        | PostgreSQL => "EXPLAIN (FORMAT JSON, VERBOSE, ANALYZE FALSE) " ++ query
        | MySQL => "EXPLAIN FORMAT=JSON " ++ query
        end) []) tr Hget) in Hrun.
  2:{ intros tr0. apply execute_then_quiet. intros rows tr1. unfold bind.
      pose proof (first_value_quiet rows tr1) as Hf.
      destruct (first_value rows tr1) as [[e|v] tr2]; simpl in Hf |- *; [exact Hf|].
      subst tr2. destruct (summarizePlan _ _); reflexivity. }
  destruct (connect (url config)); injection Hrun as _ <-;
    apply in_app_or in Hin as [Hin | Hin]; try contradiction;
    destruct Hin as [Heq | Hin]; try discriminate.
  - destruct Hin.
  - destruct Hin as [Heq | [Heq | []]]; [|discriminate].
    injection Heq as Hty Hsql Hps. subst. split; [reflexivity|]. split; [reflexivity|].
    now destruct (type config).
Qed.

Lemma analyze_sends_only_explain_witness :
  let run := analyzeQuery (fun _ => None) (fun _ _ _ => inr [[("EXPLAIN", JStr "{}")]])
               (fun _ => Some (JObj [])) [("main", main_db)] "main" "SELECT 1" [] in
  isValid (QueryValidator.validateQuery "SELECT 1" MySQL) = true /\ @nil jsval = [] /\
  "EXPLAIN FORMAT=JSON SELECT 1" = "EXPLAIN FORMAT=JSON " ++ "SELECT 1".
Proof.
  intros run.
  apply (analyze_sends_only_explain (fun _ => None) (fun _ _ _ => inr [[("EXPLAIN", JStr "{}")]])
           (fun _ => Some (JObj [])) [("main", main_db)] "main" "SELECT 1" [] (fst run) (snd run)
           MySQL "EXPLAIN FORMAT=JSON SELECT 1" []).
  - vm_compute. reflexivity.
  - vm_compute. auto.
  - intros [].
Defined.

Lemma filter_clauses_bad_key : forall ty fs clauses params key value,
  In (key, value) fs -> filter_key_ok key = false ->
  exists msg, filter_clauses ty fs clauses params = inl (ValidationError msg).
Proof.
  induction fs as [|[k v] fs IH]; intros clauses params key value Hin Hbad; [destruct Hin|].
  simpl. destruct (filter_key_ok k) eqn:Hk; simpl; [|eexists; reflexivity].
  destruct Hin as [Heq | Hin]; [injection Heq as -> ->; congruence|].
  eapply IH; eassumption.
Qed.

(** On a registered database, [queryInformationSchema] refuses a table
    other than COLUMNS, TABLES and ROUTINES, and any filter key outside
    [A-Z_]+, with a [ValidationError] and without connecting. *)
Theorem information_schema_rejections :
  forall connect exec_result databases dbName config table filters limit tr,
  get databases dbName = Some config ->
  (~ In table allowedTables ->
   queryInformationSchema connect exec_result databases dbName table filters limit tr =
   (inl (ValidationError ("Table '" ++ table ++ "' is not allowed for INFORMATION_SCHEMA queries.")), tr)) /\
  (forall fs key value, filters = Some fs -> In (key, value) fs -> filter_key_ok key = false ->
   exists msg, queryInformationSchema connect exec_result databases dbName table filters limit tr =
               (inl (ValidationError msg), tr)).
Proof.
  intros connect exec_result databases dbName config table filters limit tr Hget.
  unfold queryInformationSchema. rewrite Hget. split.
  - intros Hnot. destruct (existsb (String.eqb table) allowedTables) eqn:E; [|reflexivity].
    apply existsb_exists in E as (t & Ht & Heq). apply String.eqb_eq in Heq. subst t. contradiction.
  - intros fs key value -> Hin Hbad.
    destruct (existsb (String.eqb table) allowedTables); [|eexists; reflexivity].
    unfold information_schema_sql.
    destruct (filter_clauses_bad_key (type config) fs [] [] key value Hin Hbad) as [msg ->].
    now exists msg.
Qed.

Lemma information_schema_rejections_witness :
  get [("main", main_db)] "main" = Some main_db /\
  queryInformationSchema (fun _ => None) (fun _ _ _ => inr []) [("main", main_db)] "main"
    "USER_PRIVILEGES" None None [] =
  (inl (ValidationError ("Table '" ++ "USER_PRIVILEGES" ++
                         "' is not allowed for INFORMATION_SCHEMA queries.")), []).
Proof.
  assert (Hg : get [("main", main_db)] "main" = Some main_db) by reflexivity.
  split; [exact Hg|].
  apply (proj1 (information_schema_rejections (fun _ => None) (fun _ _ _ => inr [])
    [("main", main_db)] "main" main_db "USER_PRIVILEGES" None None [] Hg)).
  simpl. intuition discriminate.
Defined.

End Catalog.

(* ------------------------------------------------------------------ *)
(** ** Placeholders of the catalog query *)

Module Placeholders.
Import JsString Js Manager Vocabulary.
Local Open Scope string_scope.

Lemma count_char_app : forall c a b, count_char c (a ++ b) = count_char c a + count_char c b.
Proof. intros c a b. induction a as [|d a IH]; simpl; [reflexivity|]. rewrite IH. lia. Qed.

Lemma count_uint : forall ty d, count_char (placeholder ty) (NilEmpty.string_of_uint d) = 0.
Proof. intros ty d. induction d; destruct ty; simpl; auto. Qed.

Lemma count_Z_to_dec : forall ty z, count_char (placeholder ty) (Z_to_dec z) = 0.
Proof.
  intros ty z. unfold Z_to_dec, NilEmpty.string_of_int.
  destruct (Z.to_int z); [apply count_uint|].
  destruct ty; simpl; [apply (count_uint MySQL) | apply (count_uint PostgreSQL)].
Qed.

Lemma count_join : forall c sep l, count_char c sep = 0 ->
  count_char c (join sep l) = list_sum (map (count_char c) l).
Proof.
  intros c sep l Hs. induction l as [|x l IH]; [reflexivity|].
  destruct l as [|y l]; [simpl; lia|].
  change (join sep (x :: y :: l)) with (x ++ sep ++ join sep (y :: l)).
  rewrite !count_char_app, Hs, IH. simpl. lia.
Qed.

Lemma count_none : forall c s, (forall x, In x (list_ascii_of_string s) -> Ascii.eqb c x = false) ->
  count_char c s = 0.
Proof.
  intros c s. induction s as [|d s IH]; intros H; [reflexivity|]. simpl.
  rewrite H by now left. apply IH. intros x Hx. apply H. now right.
Qed.

Lemma key_char_facts : forall x, (in_range 65 90 x || Ascii.eqb x "_") = true ->
  Ascii.eqb "?" x = false /\ Ascii.eqb "$" (lower_char x) = false.
Proof.
  intros x. destruct x as [[] [] [] [] [] [] [] []]; vm_compute;
    first [intros; discriminate | intros _; split; reflexivity].
Qed.

Lemma key_placeholders : forall key, filter_key_ok key = true ->
  count_char "?" key = 0 /\ count_char "$" (toLowerCase key) = 0.
Proof.
  intros key Hk.
  assert (Hall : forallb (fun c => in_range 65 90 c || Ascii.eqb c "_") (list_ascii_of_string key) = true)
    by (destruct key; [discriminate | exact Hk]).
  rewrite forallb_forall in Hall. split; apply count_none.
  - intros x Hx. exact (proj1 (key_char_facts x (Hall x Hx))).
  - intros x Hx. unfold toLowerCase in Hx. rewrite list_ascii_of_string_of_list_ascii in Hx.
    apply in_map_iff in Hx as (y & <- & Hy). exact (proj2 (key_char_facts y (Hall y Hy))).
Qed.

Lemma count_dec_both : forall z, count_char "?" (Z_to_dec z) = 0 /\ count_char "$" (Z_to_dec z) = 0.
Proof. intros z. exact (conj (count_Z_to_dec MySQL z) (count_Z_to_dec PostgreSQL z)). Qed.

Lemma filter_clauses_count : forall ty fs clauses params clauses' params',
  filter_clauses ty fs clauses params = inr (clauses', params') ->
  list_sum (map (count_char (placeholder ty)) clauses') + length params =
  list_sum (map (count_char (placeholder ty)) clauses) + length params'.
Proof.
  intros ty fs. induction fs as [|[key value] fs IH]; intros clauses params clauses' params' H.
  - simpl in H. injection H as <- <-. reflexivity.
  - simpl in H. destruct (filter_key_ok key) eqn:Hk; simpl in H; [|discriminate].
    apply IH in H. rewrite map_app, list_sum_app, length_app in H. simpl in H.
    destruct (key_placeholders key Hk) as [Hq Hd].
    destruct ty; cbn [placeholder] in *; rewrite !count_char_app in H; simpl in H;
      rewrite ?Hq, ?Hd in H; unfold nat_to_dec in H;
      rewrite ?(proj2 (count_dec_both _)) in H; simpl in H; lia.
Qed.

(** For an allowed table, the SQL text [queryInformationSchema] builds holds
    exactly one placeholder of its dialect ([?] for MySQL, [$] for
    PostgreSQL) per parameter it passes. *)
Theorem information_schema_placeholders : forall config table filters limit sql params,
  In table allowedTables ->
  information_schema_sql config table filters limit = inr (sql, params) ->
  count_char (placeholder (type config)) sql = length params.
Proof.
  intros config table filters limit sql params Ht H.
  unfold information_schema_sql in H.
  destruct (filter_clauses (type config) _ [] []) as [e | [wc ps]] eqn:Hf; [discriminate|].
  apply filter_clauses_count in Hf. simpl in Hf.
  assert (Htab : count_char (placeholder (type config)) table = 0)
    by (destruct Ht as [<- | [<- | [<- | []]]]; destruct (type config); reflexivity).
  destruct (type config) eqn:Hty.
  - assert (Hs : sql = (("SELECT * FROM INFORMATION_SCHEMA." ++ table) ++
        (" WHERE " ++ join " AND " ("TABLE_SCHEMA = ?" :: wc))) ++
        (" LIMIT " ++ Z_to_dec (Z.min (Z.max limit 1) 1000))
      /\ params = JStr (database config) :: ps)
      by (injection H as <- <-; split; reflexivity).
    destruct Hs as [-> ->]. cbn [placeholder] in *.
    rewrite !count_char_app, count_join by reflexivity.
    rewrite Htab, (proj1 (count_dec_both _)). cbn [map list_sum length] in *.
    simpl. lia.
  - assert (Hs : sql = (("SELECT * FROM INFORMATION_SCHEMA." ++ table) ++
        (" WHERE " ++ join " AND " (("table_schema = $" ++ nat_to_dec (length ps + 1)) :: wc))) ++
        (" LIMIT " ++ Z_to_dec (Z.min (Z.max limit 1) 1000))
      /\ params = app ps [JStr "public"])
      by (injection H as <- <-; split; reflexivity).
    destruct Hs as [-> ->]. cbn [placeholder] in *.
    rewrite !count_char_app, count_join by reflexivity.
    rewrite Htab, (proj2 (count_dec_both _)). cbn [map list_sum] in *.
    rewrite count_char_app. unfold nat_to_dec. rewrite (proj2 (count_dec_both _)).
    rewrite length_app. simpl. lia.
Qed.

Lemma information_schema_placeholders_witness :
  let out := information_schema_sql main_db "COLUMNS" (Some [("TABLE_NAME", "users")]) 10%Z in
  let sql := match out with inr (s, _) => s | inl _ => EmptyString end in
  let params := match out with inr (_, p) => p | inl _ => [] end in
  count_char (placeholder (type main_db)) sql = length params.
Proof.
  intros out sql params.
  apply (information_schema_placeholders main_db "COLUMNS" (Some [("TABLE_NAME", "users")]) 10%Z).
  - simpl. tauto.
  - vm_compute. reflexivity.
Defined.

End Placeholders.


(* ------------------------------------------------------------------ *)
(** ** The registry and the connection URL *)


Module RegistryProps.
Import JsString Manager Vocabulary InputValidator Registry.
Local Open Scope string_scope.

Lemma get_map_delete : forall dbs n m,
  get (map_delete dbs n) m = if String.eqb m n then None else get dbs m.
Proof.
  intros dbs n m. induction dbs as [|[k c] dbs IH]; simpl.
  - now destruct (String.eqb m n).
  - destruct (String.eqb n k) eqn:Enk; simpl.
    + apply String.eqb_eq in Enk. subst k. rewrite IH.
      destruct (String.eqb m n); reflexivity.
    + rewrite IH. destruct (String.eqb m n) eqn:Emn; [|reflexivity].
      apply String.eqb_eq in Emn. subst m. rewrite Enk. reflexivity.
Qed.

(** Removing a registered database succeeds; afterwards its type can no
    longer be asked for and every other name resolves as before.  Removing
    an unknown name fails with [Database not found]. *)
Theorem remove_database_spec : forall dbs n,
  (get dbs n = None -> removeDatabase dbs n = inl (DatabaseError ("Database not found: " ++ n))) /\
  (forall dbs', removeDatabase dbs n = inr dbs' ->
     getDatabaseType dbs' n = inl (DatabaseError ("Database not found: " ++ n)) /\
     forall m, m <> n -> get dbs' m = get dbs m).
Proof.
  intros dbs n. unfold removeDatabase. split.
  - intros H. now rewrite H.
  - intros dbs' H. destruct (get dbs n); [|discriminate]. injection H as <-.
    split.
    + unfold getDatabaseType. rewrite get_map_delete, String.eqb_refl. reflexivity.
    + intros m Hm. rewrite get_map_delete. apply String.eqb_neq in Hm. now rewrite Hm.
Qed.

Lemma remove_database_spec_witness :
  removeDatabase [("main", main_db); ("pg", pg_db)] "main" = inr [("pg", pg_db)] /\
  getDatabaseType [("pg", pg_db)] "main" = inl (DatabaseError ("Database not found: " ++ "main")) /\
  get [("pg", pg_db)] "pg" = Some pg_db.
Proof.
  destruct (remove_database_spec [("main", main_db); ("pg", pg_db)] "main") as [_ H].
  assert (Hr : removeDatabase [("main", main_db); ("pg", pg_db)] "main" = inr [("pg", pg_db)])
    by reflexivity.
  destruct (H _ Hr) as [H1 H2]. split; [exact Hr|]. split; [exact H1|].
  rewrite (H2 "pg") by discriminate. reflexivity.
Defined.

(** A URL the validator accepts is sent to the driver its prefix names:
    [mysql://] to MySQL, [postgresql://] and [postgres://] to PostgreSQL. *)
Theorem detect_type_of_valid_url : forall u,
  isValid (validateConnectionUrl u) = true ->
  detectDatabaseType u = inr (if startsWith u "mysql://" then MySQL else PostgreSQL).
Proof.
  intros u Hv. unfold validateConnectionUrl, connectionUrlSchema in Hv.
  apply ConnectionUrl.check3_valid in Hv as (Hp & Hpre & _).
  destruct (URL.parse u) as [p|] eqn:Ep; [|discriminate].
  apply negb_false_iff in Hpre. unfold detectDatabaseType. rewrite Ep.
  destruct (startsWith u "mysql://") eqn:Em.
  - rewrite (ConnectionUrl.parse_scheme_of_prefix "mysql" u p) by (simpl; auto).
    reflexivity.
  - rewrite orb_false_l in Hpre.
    apply orb_true_iff in Hpre as [Hs | Hs].
    + rewrite (ConnectionUrl.parse_scheme_of_prefix "postgresql" u p) by (simpl; auto).
      reflexivity.
    + rewrite (ConnectionUrl.parse_scheme_of_prefix "postgres" u p) by (simpl; auto).
      reflexivity.
Qed.

Lemma detect_type_of_valid_url_witness :
  isValid (validateConnectionUrl "postgres://u:p@h:5432/app") = true /\
  detectDatabaseType "postgres://u:p@h:5432/app" = inr PostgreSQL.
Proof.
  split; [vm_compute; reflexivity|].
  apply (detect_type_of_valid_url "postgres://u:p@h:5432/app"). vm_compute. reflexivity.
Defined.

End RegistryProps.


(* ------------------------------------------------------------------ *)
(** ** Plan summaries of any EXPLAIN output *)

Module PlanIssues.
Import JsString Js Plan Vocabulary RowLimit.
Local Open Scope string_scope.

Lemma jsval_deep_ind : forall (P : jsval -> Prop),
  P JUndef -> P JNull -> (forall b, P (JBool b)) -> (forall n, P (JNum n)) ->
  (forall s, P (JStr s)) ->
  (forall l, Forall P l -> P (JArr l)) ->
  (forall ps, Forall (fun kv => P (snd kv) /\ forall l, snd kv = JArr l -> Forall P l) ps ->
     P (JObj ps)) ->
  forall v, P v.
Proof.
  intros P HU HN HB HNum HS Harr Hobj. fix IH 1. intros [| | b | n | s | l | ps];
    [exact HU | exact HN | apply HB | apply HNum | apply HS | apply Harr | apply Hobj].
  - induction l as [|v l IHl]; constructor; [apply IH | exact IHl].
  - induction ps as [|[k v] ps IHps]; constructor; [|exact IHps]. split; [apply IH|].
    simpl. destruct v as [| | | | | l0 |]; intros l Heq; try discriminate.
    assert (Hl0 : Forall P l0)
      by (clear Heq; induction l0 as [|w l0 IHl]; constructor; [apply IH | exact IHl]).
    injection Heq as <-. exact Hl0.
Qed.

Lemma extends_refl : forall s, extends_summary s s.
Proof. intros s. exists [], []. rewrite !app_nil_r. repeat split; auto. Qed.

Lemma extends_trans : forall s1 s2 s3,
  extends_summary s1 s2 -> extends_summary s2 s3 -> extends_summary s1 s3.
Proof.
  intros s1 s2 s3 (i1 & o1 & Hi1 & Ho1 & Hf1 & Hl1) (i2 & o2 & Hi2 & Ho2 & Hf2 & Hl2).
  exists (app i1 i2), (app o1 o2). rewrite Hi2, Hi1, Ho2, Ho1, !app_assoc.
  repeat split; [apply Forall_app; auto | rewrite !length_app; lia].
Qed.

Lemma extends_push_operation : forall op s, extends_summary s (push_operation op s).
Proof. intros op s. exists [], [op]. rewrite app_nil_r. repeat split; simpl; auto. Qed.

Lemma extends_scan : forall op x s,
  extends_summary s (push_issue ("Full table scan on " ++ x) (push_operation op s)).
Proof.
  intros op x s. exists ["Full table scan on " ++ x], [op].
  split; [reflexivity|]. split; [reflexivity|].
  split; [constructor; [apply prefix_app | constructor] | simpl; lia].
Qed.

Lemma extends_visit_postgres : forall plan s, extends_summary s (visit_postgres_node plan s).
Proof.
  intros plan s. unfold visit_postgres_node.
  destruct (is_str _ _); [apply extends_scan | apply extends_push_operation].
Qed.

Lemma extends_fold_undef : forall cs s,
  extends_summary s (fold_left (fun acc (_ : ascii) => push_operation JUndef acc) cs s).
Proof.
  induction cs as [|c cs IH]; intros s; [apply extends_refl|].
  simpl. eapply extends_trans; [apply extends_push_operation | apply IH].
Qed.

Lemma extends_traverse_postgres : forall plan s s',
  traversePostgresPlan plan s = Some s' -> extends_summary s s'.
Proof.
  induction plan as [| | b | n | str | l _ | ps Hps] using jsval_deep_ind; intros s s' H;
    try discriminate; try (injection H as <-; apply extends_visit_postgres).
  simpl in H. apply (extends_trans _ (visit_postgres_node (JObj ps) s)); [apply extends_visit_postgres|].
  generalize dependent (visit_postgres_node (JObj ps) s). clear s. intros s0 H.
  induction ps as [|[k v] ps IHps]; [injection H as <-; apply extends_refl|].
  inversion Hps as [|? ? [Hv Hl] Hrest]; subst. simpl in Hl.
  destruct (String.eqb k "Plans"); [|exact (IHps Hrest H)].
  destruct v as [| | b | n | str | l | ps'];
    try (destruct (truthy _); [discriminate | injection H as <-; apply extends_refl]).
  - injection H as <-. apply extends_fold_undef.
  - specialize (Hl l eq_refl). clear Hv Hrest IHps Hps. revert H.
    assert (Hgo : forall acc, extends_summary s0 acc ->
      (fix go (l : list jsval) (acc : PlanSummary) : option PlanSummary :=
         match l with
         | [] => Some acc
         | subPlan :: l' =>
             match traversePostgresPlan subPlan acc with
             | Some acc' => go l' acc'
             | None => None
             end
         end) l acc = Some s' -> extends_summary s0 s').
    { induction Hl as [|p l Hp Hl IHl]; intros acc Hacc Hgo; [now injection Hgo as <-|].
      destruct (traversePostgresPlan p acc) as [acc'|] eqn:E; [|discriminate].
      apply (IHl acc'); [eapply extends_trans; [exact Hacc | exact (Hp _ _ E)] | exact Hgo]. }
    intros H. exact (Hgo s0 (extends_refl s0) H).
Qed.


Lemma extends_visit_mysql : forall node s, extends_summary s
  (let table := member node "table" in
   if truthy table then
     let accessType := member table "access_type" in
     let summary := push_operation accessType s in
     if is_str accessType "ALL"
     then push_issue ("Full table scan on " ++ to_template (member table "table_name")) summary
     else summary
   else s).
Proof.
  intros node s. cbv zeta. destruct (truthy _); [|apply extends_refl].
  destruct (is_str _ _); [apply extends_scan | apply extends_push_operation].
Qed.

Lemma extends_traverse_mysql : forall node s, extends_summary s (traverseMySQLPlan node s).
Proof.
  induction node as [| | b | n | str | l Hl | ps Hps] using jsval_deep_ind; intros s;
    try apply extends_visit_mysql.
  - cbn [traverseMySQLPlan].
    generalize (extends_visit_mysql (JArr l) s). cbv zeta.
    match goal with |- extends_summary _ ?a -> _ => generalize a end. intros acc Hacc.
    revert acc Hacc. induction Hl as [|v l Hv Hl IHl]; intros acc Hacc; [exact Hacc|].
    destruct v; try (apply IHl; exact Hacc);
      apply IHl; exact (extends_trans _ _ _ Hacc (Hv acc)).
  - cbn [traverseMySQLPlan].
    generalize (extends_visit_mysql (JObj ps) s). cbv zeta.
    match goal with |- extends_summary _ ?a -> _ => generalize a end. intros acc Hacc.
    revert acc Hacc. induction Hps as [|[k v] ps [Hv _] Hps IHps]; intros acc Hacc; [exact Hacc|].
    simpl in Hv. destruct v; try (apply IHps; exact Hacc);
      apply IHps; exact (extends_trans _ _ _ Hacc (Hv acc)).
Qed.

(** Whatever EXPLAIN output [summarizePlan] reads, every potential issue it
    reports is a [Full table scan on ...] message, and there are never more
    issues than recorded operations. *)
Theorem plan_issues_are_table_scans : forall plan ty s,
  summarizePlan plan ty = Some s ->
  Forall (fun i => String.prefix "Full table scan on " i = true) (potentialIssues s) /\
  (length (potentialIssues s) <= length (operations s))%nat.
Proof.
  intros plan ty s H.
  assert (Hext : extends_summary empty_summary s).
  { unfold summarizePlan in H. destruct ty; cbv zeta in H.
    - destruct (truthy _); injection H as <-; [exact (extends_traverse_mysql _ _) | apply extends_refl].
    - destruct (truthy _); [|injection H as <-; apply extends_refl].
      apply extends_traverse_postgres in H. exact H. }
  destruct Hext as (is & os & -> & -> & Hf & Hl). simpl. auto.
Qed.

Lemma plan_issues_are_table_scans_witness :
  let plan := JObj [("query_block", JObj [("table",
                JObj [("table_name", JStr "users"); ("access_type", JStr "ALL")])])] in
  let s := match summarizePlan plan MySQL with Some s => s | None => empty_summary end in
  summarizePlan plan MySQL = Some s /\
  Forall (fun i => String.prefix "Full table scan on " i = true) (potentialIssues s) /\
  (length (potentialIssues s) <= length (operations s))%nat.
Proof.
  intros plan s. assert (Hs : summarizePlan plan MySQL = Some s) by (vm_compute; reflexivity).
  split; [exact Hs | exact (plan_issues_are_table_scans plan MySQL s Hs)].
Defined.

End PlanIssues.
